(** * The chat relay of [server.js]: session registry, message store, events

    A shallow embedding of the socket.io server of [src/server.js].  The
    three module-level variables ([messageCount], [messagesHistory],
    [onlineUsers]) and the per-connection closure variable
    [currentUsername] form the state; every handler registered with
    [socket.on] is a function from a state to a new state and the list of
    effects it performs (emissions, console lines, the start of a file
    write).  The callback of [fs.writeFile] is an event of its own, so the
    asynchronous boundary of the image upload is explicit. *)

From Stdlib Require Import Ascii String ZArith.
From stdpp Require Import gmap strings list list_numbers.

Local Open Scope string_scope.
Local Open Scope list_scope.
Local Open Scope Z_scope.

(** ** Values exchanged with the clients *)

(** [socket.id]. *)
Abbreviation sockid := string (only parsing).

(** A message identifier as a client sends it: a number or a string
    (typically read back from the page).  The handlers coerce it with
    [Number(...)]. *)
Inductive idarg : Type :=
| IdNum (n : Z)
| IdStr (s : string).

(** The objects pushed on [messagesHistory] (fields as in the source; the
    image messages leave the two reply fields undefined). *)
Module Message.
Record t : Type := mk {
  id : Z;
  user : option string;    (* the value of [currentUsername]: null or a string *)
  text : string;
  replyToId : option Z;
  replyToText : option string;
  timestamp : string;
  seen : bool
}.

(** [message.text = newText] *)
Definition set_text (newText : string) (m : t) : t :=
  mk (id m) (user m) newText (replyToId m) (replyToText m) (timestamp m) (seen m).

(** [message.seen = true] *)
Definition set_seen (m : t) : t :=
  mk (id m) (user m) (text m) (replyToId m) (replyToText m) (timestamp m) true.
End Message.

(** Payloads of the events the server sends. *)
Inductive outbound : Type :=
| LoadHistory (history : list Message.t)
| UserDisconnected (name : string)
| ChatMessage (messageData : Message.t)
| DeleteMessage (messageId : idarg)
| EditMessageConfirmed (id : idarg) (newText : string)
| MessageSeen (id : Z)
| Typing (username : string)
| StopTyping (username : string).

(** The lines written with [console.log] / [console.error]. *)
Inductive logline : Type :=
| LogUserSet (name : string) (c : sockid)
| LogUserDisconnected
| LogDeleted (messageId : idarg) (by_user : option string)
| LogDeleteFailed (messageId : idarg)
| LogEdited (id : idarg) (by_user : option string)
| LogEditFailed (id : idarg)
| LogExtensionNotSupported
| LogErrorSavingFile
| LogImageSaved (newFileName : string).

(** What a handler does besides updating the state. *)
Inductive effect : Type :=
| SocketEmit (c : sockid) (e : outbound)           (* socket.emit: the sender only *)
| IoEmit (e : outbound)                            (* io.emit: every connection *)
| SocketBroadcastEmit (c : sockid) (e : outbound)  (* socket.broadcast.emit: all but c *)
| WriteFile (filePath base64Data : string)         (* fs.writeFile is started *)
| Console (l : logline).

Definition is_emit (e : effect) : bool :=
  match e with
  | SocketEmit _ _ | IoEmit _ | SocketBroadcastEmit _ _ => true
  | WriteFile _ _ | Console _ => false
  end.

Definition is_write (e : effect) : bool :=
  match e with WriteFile _ _ => true | _ => false end.

(** ** Strings: [split], [pop], [toLowerCase] *)

(** [s.split(sep)] for a non-empty separator: the pieces between the
    leftmost, non-overlapping occurrences of [sep].  [skip] counts the
    characters of a matched separator still to be passed over. *)
Fixpoint split_go (sep : string) (skip : nat) (cur s : string) : list string :=
  match s with
  | EmptyString => [cur]
  | String a s' =>
      match skip with
      | S k => split_go sep k cur s'
      | O =>
          if String.prefix sep s
          then cur :: split_go sep (String.length sep - 1) "" s'
          else split_go sep 0 (cur +:+ String a "") s'
      end
  end.

Definition split (sep s : string) : list string := split_go sep 0 "" s.

(** [array.pop()] used as an expression: the last element ([split] never
    returns an empty array). *)
Definition pop (l : list string) : string := default "" (last l).

Definition lower_ascii (a : ascii) : ascii :=
  let n := nat_of_ascii a in
  if (65 <=? n)%nat && (n <=? 90)%nat then ascii_of_nat (n + 32) else a.

(** [s.toLowerCase()] on ASCII strings: the letters A-Z are lower-cased
    and every other byte is kept.  On a string with other cased
    characters the runtime's result differs, but never in whether it
    belongs to the allow-list below: no character outside A-Z lower-cases
    to one of its letters. *)
Fixpoint toLowerCase (s : string) : string :=
  match s with
  | EmptyString => EmptyString
  | String a s' => String (lower_ascii a) (toLowerCase s')
  end.

(** [data.fileName.split('.').pop().toLowerCase()] *)
Definition extension (fileName : string) : string :=
  toLowerCase (pop (split "." fileName)).

(** [data.fileData.split(';base64,').pop()] *)
Definition base64Data (fileData : string) : string :=
  pop (split ";base64," fileData).

Definition allowed_extensions : list string :=
  ["png"; "jpg"; "jpeg"; "gif"; "webp"; "avif"].

(** ** State *)

(** [onlineUsers] is a plain object used as a map from names to socket
    ids; it is modelled by its own properties (see [assign] for the one
    key that never becomes one).  [currentUsername] maps a
    connection to the string held by its closure variable; a connection
    that is not in the map holds [null].  [pendingWrites] are the
    [fs.writeFile] calls whose callback has not run yet, each with the
    socket and the [newFileName] its closure captured.  [messageCount] is
    a JavaScript number used as a counter; it is an exact integer here. *)
Record State : Type := mkState {
  messageCount : Z;
  messagesHistory : list Message.t;
  onlineUsers : gmap string sockid;
  currentUsername : gmap sockid string;
  pendingWrites : list (sockid * string)
}.

Definition init : State := mkState 0 [] ∅ ∅ [].

(** JavaScript truthiness of a value that is null or a string. *)
Definition truthy (v : option string) : bool :=
  match v with
  | Some s => bool_decide (s ≠ "")
  | None => false
  end.

(** [obj[key] = value] on the plain object [onlineUsers]: the own
    property [key] is created or overwritten.  The one exception is the
    key [__proto__], which the object inherits as an accessor whose
    setter ignores a string: the assignment then stores nothing.
    ([delete obj[key]] removes an own property and is [delete] on the
    map.) *)
Definition assign (key : string) (value : sockid)
    (obj : gmap string sockid) : gmap string sockid :=
  if decide (key = "__proto__") then obj else <[key := value]> obj.

(** ** Events *)

(** The events of one run: what the connections send, and the completion
    of a pending file write.  [now] is the formatted wall-clock time the
    handler reads; [stem] is the [Date.now()]/[Math.random()] part of the
    new file name. *)
Inductive event : Type :=
| on_set_username (c : sockid) (username : string)
| on_disconnect (c : sockid)
| on_chat_message (c : sockid) (text : string) (replyToId : option Z)
    (replyToText : option string) (now : string)
| on_delete_message (c : sockid) (messageId : idarg)
| on_edit_message (c : sockid) (id : idarg) (newText : string)
| on_mark_seen (c : sockid) (messageId : idarg)
| on_typing (c : sockid) (username : string)
| on_stop_typing (c : sockid) (username : string)
| on_image_upload (c : sockid) (fileData fileName stem : string)
| on_write_done (k : nat) (err : bool) (now : string).

(** Decimal digit strings, as an instance of the string-to-number
    coercion for concrete runs. *)
Fixpoint digits_value (acc : Z) (s : string) : option Z :=
  match s with
  | EmptyString => Some acc
  | String a s' =>
      let n := nat_of_ascii a in
      if (48 <=? n)%nat && (n <=? 57)%nat
      then digits_value (10 * acc + Z.of_nat (n - 48)) s'
      else None
  end.

Definition decimal_string (s : string) : option Z := digits_value 0 s.

(** Two runs used to instantiate the results: two named users and one
    message; and a name claimed by a second connection. *)
Definition two_users_one_message : list event :=
  [on_set_username "A" "alice"; on_set_username "B" "bob";
   on_chat_message "A" "hi" None None "10:00 AM"].

Definition name_reclaimed : list event :=
  [on_set_username "A" "alice"; on_set_username "B" "alice"].

Definition upload_started : list event :=
  [on_set_username "A" "alice";
   on_image_upload "A" "data:image/png;base64,QUJD" "cat.PNG" "1700_abc"].

Section Server.

(** [Number(s)] on a string, when the result is an integer ([None] for
    NaN and for anything that cannot equal a message identifier).  The
    runtime's parser is a parameter: every result below holds whatever it
    answers. *)
Variable StringToNumber : string → option Z.

(** [Number(messageId)] *)
Definition Number (x : idarg) : option Z :=
  match x with
  | IdNum n => Some n
  | IdStr s => StringToNumber s
  end.

(** [messagesHistory.find(m => m.id === Number(x))], with the index that
    [findIndex] returns. *)
Definition find_message (x : idarg) (h : list Message.t)
  : option (nat * Message.t) :=
  list_find (λ m, Some (Message.id m) = Number x) h.

(** *** set username *)
Definition handle_set_username (s : State) (c : sockid) (username : string)
  : State * list effect :=
  let cur := currentUsername s !! c in
  if truthy (Some username) && bool_decide (Some username ≠ cur) then
    let registry :=
      match cur with
      | Some old => if truthy cur then delete old (onlineUsers s) else onlineUsers s
      | None => onlineUsers s
      end in
    (mkState (messageCount s) (messagesHistory s)
             (assign username c registry)
             (<[c := username]> (currentUsername s))
             (pendingWrites s),
     [Console (LogUserSet username c);
      SocketEmit c (LoadHistory (messagesHistory s))])
  else (s, []).

(** *** disconnect *)
Definition handle_disconnect (s : State) (c : sockid) : State * list effect :=
  let cur := currentUsername s !! c in
  match cur with
  | Some name =>
      if truthy cur then
        (mkState (messageCount s) (messagesHistory s)
                 (delete name (onlineUsers s))
                 (currentUsername s) (pendingWrites s),
         [Console LogUserDisconnected; IoEmit (UserDisconnected name)])
      else (s, [Console LogUserDisconnected])
  | None => (s, [Console LogUserDisconnected])
  end.

(** *** chat message *)
Definition handle_chat_message (s : State) (c : sockid) (text : string)
    (replyToId : option Z) (replyToText : option string) (now : string)
  : State * list effect :=
  let cur := currentUsername s !! c in
  if negb (truthy cur) then (s, [])
  else
    let messageData :=
      Message.mk (messageCount s) cur text replyToId replyToText now false in
    (mkState (messageCount s + 1) (messagesHistory s ++ [messageData])
             (onlineUsers s) (currentUsername s) (pendingWrites s),
     [IoEmit (ChatMessage messageData)]).

(** *** delete message *)
Definition handle_delete_message (s : State) (c : sockid) (messageId : idarg)
  : State * list effect :=
  let cur := currentUsername s !! c in
  match find_message messageId (messagesHistory s) with
  | Some (messageIndex, m) =>
      if bool_decide (Message.user m = cur) then
        (mkState (messageCount s) (delete messageIndex (messagesHistory s))
                 (onlineUsers s) (currentUsername s) (pendingWrites s),
         [IoEmit (DeleteMessage messageId); Console (LogDeleted messageId cur)])
      else (s, [Console (LogDeleteFailed messageId)])
  | None => (s, [Console (LogDeleteFailed messageId)])
  end.

(** *** edit message *)
Definition handle_edit_message (s : State) (c : sockid) (id : idarg)
    (newText : string) : State * list effect :=
  let cur := currentUsername s !! c in
  match find_message id (messagesHistory s) with
  | Some (i, message) =>
      if bool_decide (Message.user message = cur) then
        (mkState (messageCount s)
                 (<[i := Message.set_text newText message]> (messagesHistory s))
                 (onlineUsers s) (currentUsername s) (pendingWrites s),
         [IoEmit (EditMessageConfirmed id newText); Console (LogEdited id cur)])
      else (s, [Console (LogEditFailed id)])
  | None => (s, [Console (LogEditFailed id)])
  end.

(** *** mark seen *)
Definition handle_mark_seen (s : State) (c : sockid) (messageId : idarg)
  : State * list effect :=
  let cur := currentUsername s !! c in
  match find_message messageId (messagesHistory s) with
  | Some (i, message) =>
      if negb (Message.seen message) && bool_decide (Message.user message ≠ cur) then
        (mkState (messageCount s)
                 (<[i := Message.set_seen message]> (messagesHistory s))
                 (onlineUsers s) (currentUsername s) (pendingWrites s),
         [IoEmit (MessageSeen (Message.id message))])
      else (s, [])
  | None => (s, [])
  end.

(** *** image upload: the synchronous part, up to the call of
    [fs.writeFile] *)
Definition handle_image_upload (s : State) (c : sockid)
    (fileData fileName stem : string) : State * list effect :=
  let cur := currentUsername s !! c in
  if negb (truthy cur) then (s, [])
  else
    let base64 := base64Data fileData in
    let ext := extension fileName in
    if negb (bool_decide (ext ∈ allowed_extensions)) then
      (s, [Console LogExtensionNotSupported])
    else
      let newFileName := stem +:+ "." +:+ ext in
      let filePath := "uploads/" +:+ newFileName in
      (mkState (messageCount s) (messagesHistory s) (onlineUsers s)
               (currentUsername s) (pendingWrites s ++ [(c, newFileName)]),
       [WriteFile filePath base64]).

(** *** the callback of [fs.writeFile], for the [k]-th write in flight *)
Definition handle_write_done (s : State) (k : nat) (err : bool) (now : string)
  : State * list effect :=
  match pendingWrites s !! k with
  | None => (s, [])
  | Some (c, newFileName) =>
      let pending := delete k (pendingWrites s) in
      if err then
        (mkState (messageCount s) (messagesHistory s) (onlineUsers s)
                 (currentUsername s) pending,
         [Console LogErrorSavingFile])
      else
        let imageUrl := "/uploads/" +:+ newFileName in
        let messageData :=
          Message.mk (messageCount s) (currentUsername s !! c) imageUrl
                     None None now false in
        (mkState (messageCount s + 1) (messagesHistory s ++ [messageData])
                 (onlineUsers s) (currentUsername s) pending,
         [IoEmit (ChatMessage messageData); Console (LogImageSaved newFileName)])
  end.

(** *** dispatch *)
Definition step (s : State) (e : event) : State * list effect :=
  match e with
  | on_set_username c username => handle_set_username s c username
  | on_disconnect c => handle_disconnect s c
  | on_chat_message c text replyToId replyToText now =>
      handle_chat_message s c text replyToId replyToText now
  | on_delete_message c messageId => handle_delete_message s c messageId
  | on_edit_message c id newText => handle_edit_message s c id newText
  | on_mark_seen c messageId => handle_mark_seen s c messageId
  | on_typing c username => (s, [SocketBroadcastEmit c (Typing username)])
  | on_stop_typing c username => (s, [SocketBroadcastEmit c (StopTyping username)])
  | on_image_upload c fileData fileName stem =>
      handle_image_upload s c fileData fileName stem
  | on_write_done k err now => handle_write_done s k err now
  end.

(** One event after the other, collecting the effects in order. *)
Definition run_from (s : State) (t : list effect) (evs : list event)
  : State * list effect :=
  fold_left (λ st e, ((step st.1 e).1, st.2 ++ (step st.1 e).2)) evs (s, t).

Definition run (evs : list event) : State * list effect := run_from init [] evs.

Inductive reachable : State → Prop :=
| reachable_init : reachable init
| reachable_step s e : reachable s → reachable (step s e).1.

(** ** What the claims speak about *)

(** The identifiers handed out along a trace, in the order of creation:
    both places that push on [messagesHistory] broadcast the object they
    push with [io.emit('chat message', messageData)]. *)
Definition created (t : list effect) : list Z :=
  omap (λ e, match e with
             | IoEmit (ChatMessage m) => Some (Message.id m)
             | _ => None
             end) t.

(** The identifiers of the messages removed along a trace: a successful
    delete broadcasts the identifier it was asked to remove. *)
Definition deleted (t : list effect) : list Z :=
  omap (λ e, match e with
             | IoEmit (DeleteMessage x) => Number x
             | _ => None
             end) t.

(** The events that the handlers guard with [if (!currentUsername) return]
    or with a comparison against the author, sent by connection [c]. *)
Definition needs_bound_name (c : sockid) (e : event) : bool :=
  match e with
  | on_chat_message c' _ _ _ _ | on_delete_message c' _
  | on_edit_message c' _ _ | on_image_upload c' _ _ _ => bool_decide (c' = c)
  | _ => false
  end.

(** A [set username] of connection [c] that passes the handler's test
    of the name. *)
Definition sets_username (c : sockid) (e : event) : bool :=
  match e with
  | on_set_username c' username => bool_decide (c' = c) && truthy (Some username)
  | _ => false
  end.

(** Connection [c] never sent a [set username] that the handler accepts. *)
Definition never_set_username (c : sockid) (evs : list event) : Prop :=
  Forall (λ e, sets_username c e = false) evs.

(** A declared file name whose last dot-separated piece equals, letter
    case aside, an extension of the allow-list. *)
Definition extension_allowed (fileName : string) : Prop :=
  Exists (λ e, toLowerCase (pop (split "." fileName)) = toLowerCase e)
         allowed_extensions.

(** Release as the contract words it: drop the entries whose value is the
    connection. *)
Definition release_by_value (c : sockid) (registry : gmap string sockid)
  : gmap string sockid :=
  filter (λ kv, kv.2 ≠ c) registry.

(** Some message of the log has the identifier [x] coerces to. *)
Definition message_exists (x : idarg) (h : list Message.t) : Prop :=
  ∃ m, m ∈ h ∧ Some (Message.id m) = Number x.

(** ... and is recorded under the author [cur]. *)
Definition authored_by (cur : option string) (x : idarg) (h : list Message.t)
  : Prop :=
  ∃ m, m ∈ h ∧ Some (Message.id m) = Number x ∧ Message.user m = cur.


(** Invariants of the reachable states. *)
Record wf (s : State) : Prop := {
  wf_count : 0 ≤ messageCount s;
  wf_authors : ∀ m, m ∈ messagesHistory s → truthy (Message.user m) = true;
  wf_ids : ∀ m, m ∈ messagesHistory s → 0 ≤ Message.id m < messageCount s;
  wf_nodup : NoDup (Message.id <$> messagesHistory s);
  wf_names : ∀ c n, currentUsername s !! c = Some n → n ≠ "";
  wf_registry : ∀ n c, onlineUsers s !! n = Some c → currentUsername s !! c = Some n;
  wf_pending : ∀ c f, (c, f) ∈ pendingWrites s → is_Some (currentUsername s !! c)
}.


(** The trace of a run accounts for the store. *)
Record accounted (s : State) (t : list effect) : Prop := {
  acc_created : created t = seqZ 0 (messageCount s);
  acc_count : 0 ≤ messageCount s;
  acc_deleted : ∀ k, k ∈ deleted t → k < messageCount s;
  acc_history :
    Message.id <$> messagesHistory s = filter (λ k, k ∉ deleted t) (created t)
}.

(** The three shapes of a step, seen from the message store. *)
Inductive store_change (s s' : State) (o : list effect) : Prop :=
| store_kept :
    messageCount s' = messageCount s →
    Message.id <$> messagesHistory s' = Message.id <$> messagesHistory s →
    created o = [] → deleted o = [] →
    store_change s s' o
| store_appended m :
    messageCount s' = messageCount s + 1 →
    messagesHistory s' = messagesHistory s ++ [m] →
    Message.id m = messageCount s →
    created o = [messageCount s] → deleted o = [] →
    store_change s s' o
| store_removed i m :
    messageCount s' = messageCount s →
    messagesHistory s !! i = Some m →
    messagesHistory s' = delete i (messagesHistory s) →
    created o = [] → deleted o = [Message.id m] →
    store_change s s' o.

(** ** Further notions: relays, registry, uploads, strings *)

(** The two events that are relayed without touching the state. *)
Definition is_typing (e : event) : bool :=
  match e with
  | on_typing _ _ | on_stop_typing _ _ => true
  | _ => false
  end.

(** [socket.broadcast.emit]: an emission to everybody but the sender. *)
Definition is_relay (x : effect) : bool :=
  match x with SocketBroadcastEmit _ _ => true | _ => false end.

(** A console line written by the callback of [fs.writeFile]. *)
Definition is_completion (x : effect) : bool :=
  match x with
  | Console LogErrorSavingFile | Console (LogImageSaved _) => true
  | _ => false
  end.

(** The state with another content of [onlineUsers]. *)
Definition with_registry (registry : gmap string sockid) (s : State) : State :=
  mkState (messageCount s) (messagesHistory s) registry
          (currentUsername s) (pendingWrites s).

(** The fields of a message that no handler assigns after creation. *)
Definition same_record (m m' : Message.t) : Prop :=
  Message.id m' = Message.id m ∧
  Message.user m' = Message.user m ∧
  Message.timestamp m' = Message.timestamp m ∧
  Message.replyToId m' = Message.replyToId m ∧
  Message.replyToText m' = Message.replyToText m.

(** Every message of the log that has the identifier of [m0] is [m0] up
    to its text and its seen flag, and is seen if [m0] is. *)
Definition keeps_record (m0 : Message.t) (s : State) : Prop :=
  Message.id m0 < messageCount s ∧
  ∀ m, m ∈ messagesHistory s → Message.id m = Message.id m0 →
       same_record m0 m ∧ (Message.seen m0 = true → Message.seen m = true).

(** No own property is ever stored under [__proto__]. *)
Definition proto_free (s : State) : Prop :=
  onlineUsers s !! "__proto__" = None.

(** All the characters of [s] are ASCII (code below 128). *)
Fixpoint ascii_only (s : string) : bool :=
  match s with
  | EmptyString => true
  | String a s' => (nat_of_ascii a <? 128)%nat && ascii_only s'
  end.

(** Character [a] occurs in [s]. *)
Fixpoint has_char (a : ascii) (s : string) : bool :=
  match s with
  | EmptyString => false
  | String b s' => if Ascii.eqb a b then true else has_char a s'
  end.

(** ** Basic facts *)

Example split_dots : split "." "a..b." = ["a"; ""; "b"; ""].
Proof. reflexivity. Qed.

Example split_no_separator : split "." "png" = ["png"].
Proof. reflexivity. Qed.

Example split_data_uri :
  split ";base64," "data:image/png;base64,QUJD" = ["data:image/png"; "QUJD"].
Proof. reflexivity. Qed.

Example extension_mixed_case : extension "holiday.photo.JpEg" = "jpeg".
Proof. reflexivity. Qed.

Example extension_exe : extension "photo.EXE" = "exe".
Proof. reflexivity. Qed.

Lemma truthy_Some (v : option string) :
  truthy v = true ↔ ∃ n, v = Some n ∧ n ≠ "".
Proof.
  destruct v as [n|]; simpl.
  - rewrite bool_decide_eq_true. naive_solver.
  - naive_solver.
Qed.

Lemma truthy_None : truthy None = false.
Proof. reflexivity. Qed.

Lemma find_message_Some x h i m :
  find_message x h = Some (i, m) →
  h !! i = Some m ∧ Some (Message.id m) = Number x.
Proof. unfold find_message. rewrite list_find_Some. naive_solver. Qed.

Lemma find_message_None x h :
  find_message x h = None ↔ ¬ message_exists x h.
Proof.
  unfold find_message, message_exists. rewrite list_find_None, Forall_forall.
  naive_solver.
Qed.

(** With distinct identifiers, [find] returns the one message that has
    the identifier. *)
Lemma find_message_unique x h i m :
  NoDup (Message.id <$> h) →
  h !! i = Some m → Some (Message.id m) = Number x →
  find_message x h = Some (i, m).
Proof.
  intros Hnd Hi Hx. unfold find_message. apply list_find_Some.
  split_and!; [done..|]. intros j y Hj Hlt Hy.
  assert (j = i); [|lia].
  eapply NoDup_lookup; [exact Hnd| |].
  - rewrite list_lookup_fmap, Hj. reflexivity.
  - rewrite list_lookup_fmap, Hi. simpl. f_equal. congruence.
Qed.

Lemma find_message_elem_of x h m :
  NoDup (Message.id <$> h) →
  m ∈ h → Some (Message.id m) = Number x →
  ∃ i, h !! i = Some m ∧ find_message x h = Some (i, m).
Proof.
  intros Hnd [i Hi]%list_elem_of_lookup_1 Hx.
  exists i. eauto using find_message_unique.
Qed.

(** ** The invariants hold in every reachable state *)

Lemma wf_init : wf init.
Proof.
  split; simpl; try lia; try (intros; set_solver).
  constructor.
Qed.

Lemma lookup_assign_Some key value (obj : gmap string sockid) n c :
  assign key value obj !! n = Some c →
  (n = key ∧ c = value) ∨ obj !! n = Some c.
Proof.
  unfold assign. case_decide; [by right|].
  rewrite lookup_insert_Some. naive_solver.
Qed.

Lemma lookup_assign_ne key value (obj : gmap string sockid) n :
  n ≠ key → assign key value obj !! n = obj !! n.
Proof.
  intros Hn. unfold assign. case_decide; [done|]. by rewrite lookup_insert_ne.
Qed.

Lemma lookup_assign_eq key value (obj : gmap string sockid) :
  key ≠ "__proto__" → assign key value obj !! key = Some value.
Proof.
  intros Hk. unfold assign. rewrite decide_False by done. apply lookup_insert_eq.
Qed.

Lemma lookup_assign_proto value (obj : gmap string sockid) :
  assign "__proto__" value obj = obj.
Proof. reflexivity. Qed.

Lemma wf_set_username s c username :
  wf s → wf (handle_set_username s c username).1.
Proof.
  intros [Hc Ha Hi Hn Hna Hr Hp]. unfold handle_set_username.
  destruct (truthy (Some username) && _) eqn:Hguard; [|by split].
  apply andb_true_iff in Hguard as [Hne _]. simpl in Hne.
  apply bool_decide_eq_true in Hne.
  split; simpl; try done.
  - intros c' n. rewrite lookup_insert_Some. naive_solver.
  - intros n c' [[-> ->]|Hl]%lookup_assign_Some; [by rewrite lookup_insert_eq|].
    assert (onlineUsers s !! n = Some c' ∧
            (c' = c → currentUsername s !! c ≠ Some n)) as [Hl' Hc'].
    { destruct (currentUsername s !! c) as [old|] eqn:Hcur.
      - destruct (truthy (Some old)) eqn:Ht.
        + apply lookup_delete_Some in Hl as [? ?]. split; [done|]. congruence.
        + split; [done|]. intros _ [= ->]. simpl in Ht.
          apply bool_decide_eq_false in Ht. apply Ht. eauto.
      - done. }
    destruct (decide (c' = c)) as [->|Hcc].
    + exfalso. apply Hc'; [done|]. by apply Hr.
    + rewrite lookup_insert_ne by done. by apply Hr.
  - intros c' f Hin. destruct (decide (c' = c)) as [->|Hcc].
    + rewrite lookup_insert_eq. eauto.
    + rewrite lookup_insert_ne by done. eauto.
Qed.

Lemma wf_disconnect s c : wf s → wf (handle_disconnect s c).1.
Proof.
  intros [Hc Ha Hi Hn Hna Hr Hp]. unfold handle_disconnect.
  destruct (currentUsername s !! c) as [name|] eqn:Hcur; [|by split].
  destruct (truthy (Some name)); [|by split].
  split; simpl; try done.
  intros n c' [? ?]%lookup_delete_Some. by apply Hr.
Qed.

(** Appending a message with the next identifier and a bound author. *)
Lemma wf_append s m pending :
  wf s → Message.id m = messageCount s → truthy (Message.user m) = true →
  (∀ x, x ∈ pending → x ∈ pendingWrites s) →
  wf (mkState (messageCount s + 1) (messagesHistory s ++ [m])
              (onlineUsers s) (currentUsername s) pending).
Proof.
  intros [Hc Ha Hi Hn Hna Hr Hp] Hid Hu Hsub. split; simpl; try done.
  - lia.
  - intros m' [?| ->%list_elem_of_singleton]%elem_of_app; eauto.
  - intros m' [Hm'| ->%list_elem_of_singleton]%elem_of_app; [apply Hi in Hm'|]; lia.
  - rewrite fmap_app. apply NoDup_app. split_and!; [done| |apply NoDup_singleton].
    intros k (m' & -> & Hm')%list_elem_of_fmap Hk%list_elem_of_singleton.
    apply Hi in Hm'. simpl in Hk. lia.
  - intros c f Hin. destruct c; eauto.
Qed.

Lemma wf_chat_message s c text replyToId replyToText now :
  wf s → wf (handle_chat_message s c text replyToId replyToText now).1.
Proof.
  intros Hwf. unfold handle_chat_message.
  destruct (truthy (currentUsername s !! c)) eqn:Ht; simpl; [|done].
  by apply wf_append.
Qed.

Lemma wf_delete_message s c messageId :
  wf s → wf (handle_delete_message s c messageId).1.
Proof.
  intros Hwf. unfold handle_delete_message.
  destruct (find_message messageId (messagesHistory s)) as [[i m]|]; [|done].
  case_bool_decide; [|done].
  destruct Hwf as [Hc Ha Hi Hn Hna Hr Hp]. split; simpl; try done.
  - intros m' ?%list_elem_of_delete_inv. eauto.
  - intros m' ?%list_elem_of_delete_inv. eauto.
  - rewrite list_fmap_delete. eapply sublist_NoDup; [|apply sublist_delete]. done.
Qed.

(** Replacing a message by one with the same identifier and author. *)
Lemma wf_replace s i m m' :
  wf s → messagesHistory s !! i = Some m →
  Message.id m' = Message.id m → Message.user m' = Message.user m →
  wf (mkState (messageCount s) (<[i := m']> (messagesHistory s))
              (onlineUsers s) (currentUsername s) (pendingWrites s)).
Proof.
  intros [Hc Ha Hi Hn Hna Hr Hp] Hl Hid Hu.
  assert (Hm : m ∈ messagesHistory s) by eauto using list_elem_of_lookup_2.
  assert (Hin : ∀ x, x ∈ <[i := m']> (messagesHistory s) →
                     x = m' ∨ x ∈ messagesHistory s).
  { intros x [j Hj]%list_elem_of_lookup_1.
    apply list_lookup_insert_Some in Hj as [(-> & -> & _)|[_ Hj]]; [by left|].
    right. eauto using list_elem_of_lookup_2. }
  split; simpl; try done.
  - intros x [->|?]%Hin; [rewrite Hu|]; eauto.
  - intros x [->|?]%Hin; [rewrite Hid|]; eauto.
  - rewrite list_fmap_insert, Hid, list_insert_id; [done|].
    by rewrite list_lookup_fmap, Hl.
Qed.

Lemma wf_edit_message s c id newText :
  wf s → wf (handle_edit_message s c id newText).1.
Proof.
  intros Hwf. unfold handle_edit_message.
  destruct (find_message id (messagesHistory s)) as [[i m]|] eqn:Hf; [|done].
  case_bool_decide; [|done]. apply find_message_Some in Hf as [Hl _].
  by eapply wf_replace.
Qed.

Lemma wf_mark_seen s c messageId :
  wf s → wf (handle_mark_seen s c messageId).1.
Proof.
  intros Hwf. unfold handle_mark_seen.
  destruct (find_message messageId (messagesHistory s)) as [[i m]|] eqn:Hf; [|done].
  destruct (negb _ && _); [|done]. apply find_message_Some in Hf as [Hl _].
  by eapply wf_replace.
Qed.

Lemma wf_image_upload s c fileData fileName stem :
  wf s → wf (handle_image_upload s c fileData fileName stem).1.
Proof.
  intros Hwf. unfold handle_image_upload.
  destruct (truthy (currentUsername s !! c)) eqn:Ht; simpl; [|done].
  case_bool_decide; simpl; [|done].
  destruct Hwf as [Hc Ha Hi Hn Hna Hr Hp]. split; simpl; try done.
  intros c' f [?|[= -> ->]%list_elem_of_singleton]%elem_of_app; [eauto|].
  apply truthy_Some in Ht as (n & -> & _). eauto.
Qed.

Lemma wf_write_done s k err now :
  wf s → wf (handle_write_done s k err now).1.
Proof.
  intros Hwf. unfold handle_write_done.
  destruct (pendingWrites s !! k) as [[c f]|] eqn:Hk; [|done].
  destruct err; simpl.
  - destruct Hwf as [Hc Ha Hi Hn Hna Hr Hp]. split; simpl; try done.
    intros c' f' ?%list_elem_of_delete_inv. eauto.
  - apply wf_append; [done..| |].
    + simpl. apply truthy_Some.
      destruct (wf_pending _ Hwf c f) as [n Hn];
        [by eapply list_elem_of_lookup_2|].
      exists n. split; [done|]. by eapply wf_names.
    + intros x ?%list_elem_of_delete_inv. done.
Qed.

Lemma wf_step s e : wf s → wf (step s e).1.
Proof.
  destruct e; simpl; auto using wf_set_username, wf_disconnect,
    wf_chat_message, wf_delete_message, wf_edit_message, wf_mark_seen,
    wf_image_upload, wf_write_done.
Qed.

Lemma reachable_wf s : reachable s → wf s.
Proof. induction 1; auto using wf_init, wf_step. Qed.

(** ** The trace accounts for the store *)

Lemma created_app t1 t2 : created (t1 ++ t2) = created t1 ++ created t2.
Proof. apply omap_app. Qed.

Lemma deleted_app t1 t2 : deleted (t1 ++ t2) = deleted t1 ++ deleted t2.
Proof. apply omap_app. Qed.

Lemma filter_all_Z (P : Z → Prop) `{!∀ x, Decision (P x)} (l : list Z) :
  (∀ x, x ∈ l → P x) → filter P l = l.
Proof.
  induction l as [|x l IH]; intros Hall; [done|].
  rewrite filter_cons_True by (apply Hall; left).
  f_equal. apply IH. intros y Hy. apply Hall. by right.
Qed.

(** Removing the element at an index of a duplicate-free list is
    filtering its value out. *)
Lemma delete_is_filter (l : list Z) (i : nat) (k : Z) :
  NoDup l → l !! i = Some k → delete i l = filter (λ x, x ≠ k) l.
Proof.
  intros Hnd. revert i. induction Hnd as [|x l Hx Hnd IH]; intros i Hi; [done|].
  destruct i as [|i]; simpl in *.
  - injection Hi as ->. rewrite filter_cons_False by naive_solver.
    symmetry. apply filter_all_Z. intros y Hy ->. done.
  - assert (x ≠ k) by (intros ->; eauto using list_elem_of_lookup_2).
    rewrite filter_cons_True by done. f_equal. by apply IH.
Qed.

Lemma fmap_id_insert (h : list Message.t) i m m' :
  h !! i = Some m → Message.id m' = Message.id m →
  Message.id <$> <[i := m']> h = Message.id <$> h.
Proof.
  intros Hl Hid. rewrite list_fmap_insert, Hid.
  apply list_insert_id. by rewrite list_lookup_fmap, Hl.
Qed.

Lemma step_store_change s e : store_change s (step s e).1 (step s e).2.
Proof.
  destruct e; simpl.
  - unfold handle_set_username. case_match; simpl; by apply store_kept.
  - unfold handle_disconnect. repeat case_match; simpl; by apply store_kept.
  - unfold handle_chat_message. case_match; simpl; [by apply store_kept|].
    by eapply store_appended.
  - unfold handle_delete_message.
    destruct (find_message _ _) as [[i m]|] eqn:Hf; [|by apply store_kept].
    case_bool_decide; [|by apply store_kept].
    apply find_message_Some in Hf as [Hl Hx].
    eapply (store_removed _ _ _ i m); simpl; try done. by rewrite <- Hx.
  - unfold handle_edit_message.
    destruct (find_message _ _) as [[i m]|] eqn:Hf; [|by apply store_kept].
    case_bool_decide; [|by apply store_kept].
    apply find_message_Some in Hf as [Hl Hx].
    apply store_kept; simpl; try done. by eapply fmap_id_insert.
  - unfold handle_mark_seen.
    destruct (find_message _ _) as [[i m]|] eqn:Hf; [|by apply store_kept].
    case_match; [|by apply store_kept].
    apply find_message_Some in Hf as [Hl Hx].
    apply store_kept; simpl; try done. by eapply fmap_id_insert.
  - by apply store_kept.
  - by apply store_kept.
  - unfold handle_image_upload. repeat case_match; simpl; by apply store_kept.
  - unfold handle_write_done.
    destruct (pendingWrites s !! k) as [[c f]|]; [|by apply store_kept].
    destruct err; simpl; [by apply store_kept|]. by eapply store_appended.
Qed.

Lemma accounted_init : accounted init [].
Proof. split; simpl; try done. intros k Hk. inversion Hk. Qed.

Lemma accounted_nodup s t : accounted s t → NoDup (Message.id <$> messagesHistory s).
Proof.
  intros [Hc _ _ Hh]. rewrite Hh, Hc.
  eapply sublist_NoDup; [apply NoDup_seqZ|apply sublist_filter].
Qed.

Lemma accounted_step s t e :
  accounted s t → accounted (step s e).1 (t ++ (step s e).2).
Proof.
  intros Hacc. pose proof (accounted_nodup _ _ Hacc) as Hnd.
  destruct Hacc as [Hc H0 Hd Hh].
  destruct (step_store_change s e) as [Hn Hi Hcr Hde|m Hn Hi Hid Hcr Hde|i m Hn Hl Hi Hcr Hde];
    split; rewrite ?created_app, ?deleted_app, ?Hcr, ?Hde, ?Hn, ?Hi, ?app_nil_r;
    try done; try lia.
  - rewrite Hc. replace (seqZ 0 (messageCount s + 1))
      with (seqZ 0 (messageCount s) ++ seqZ (0 + messageCount s) 1)
      by (symmetry; apply seqZ_app; lia).
    done.
  - intros k Hk. apply Hd in Hk. lia.
  - rewrite fmap_app, filter_app, Hh. f_equal. simpl.
    rewrite filter_cons_True; [by rewrite Hid|].
    intros Hin%Hd. lia.
  - intros k [Hk| ->%list_elem_of_singleton]%elem_of_app; [by apply Hd|].
    assert (Hm : Message.id m ∈ Message.id <$> messagesHistory s).
    { apply list_elem_of_fmap_2. by eapply list_elem_of_lookup_2. }
    rewrite Hh, Hc in Hm. apply list_elem_of_filter in Hm as [_ Hm].
    apply elem_of_seqZ in Hm. lia.
  - rewrite list_fmap_delete.
    rewrite (delete_is_filter _ i (Message.id m)) by
      (by rewrite ?list_lookup_fmap, ?Hl).
    rewrite Hh, list_filter_filter. apply list_filter_iff.
    intros k. rewrite elem_of_app, list_elem_of_singleton. naive_solver.
Qed.

Lemma run_from_snoc s t evs e :
  run_from s t (evs ++ [e]) =
  ((step (run_from s t evs).1 e).1,
   (run_from s t evs).2 ++ (step (run_from s t evs).1 e).2).
Proof. unfold run_from. by rewrite fold_left_app. Qed.

Lemma run_snoc evs e :
  run (evs ++ [e]) =
  ((step (run evs).1 e).1, (run evs).2 ++ (step (run evs).1 e).2).
Proof. apply run_from_snoc. Qed.

Lemma run_accounted evs : accounted (run evs).1 (run evs).2.
Proof.
  induction evs as [|e evs IH] using rev_ind; [apply accounted_init|].
  rewrite run_snoc. simpl. by apply accounted_step.
Qed.

Lemma run_reachable evs : reachable (run evs).1.
Proof.
  induction evs as [|e evs IH] using rev_ind; [apply reachable_init|].
  rewrite run_snoc. simpl. by apply reachable_step.
Qed.

Lemma reachable_run s : reachable s → ∃ evs, (run evs).1 = s.
Proof.
  induction 1 as [|s e _ [evs <-]]; [by exists []|].
  exists (evs ++ [e]). by rewrite run_snoc.
Qed.

(** ** Once seen, never marked again *)

Lemma elem_of_insert_inv {A} (l : list A) i x y :
  x ∈ <[i := y]> l → x = y ∨ x ∈ l.
Proof.
  intros [j Hj]%list_elem_of_lookup_1.
  apply list_lookup_insert_Some in Hj as [(-> & -> & _)|[_ Hj]]; [by left|].
  right. eauto using list_elem_of_lookup_2.
Qed.





(** ** A connection without a name *)

Lemma unbound_step s c e :
  currentUsername s !! c = None → sets_username c e = false →
  currentUsername (step s e).1 !! c = None.
Proof.
  intros Hc He. destruct e; simpl in *.
  - unfold handle_set_username. case_match eqn:Hg; [|done]. simpl.
    apply andb_true_iff in Hg as [Hne _].
    rewrite lookup_insert_ne; [done|]. intros ->.
    rewrite (bool_decide_eq_true_2 (c = c)) in He by done.
    simpl in *. congruence.
  - unfold handle_disconnect. by repeat case_match.
  - unfold handle_chat_message. by case_match.
  - unfold handle_delete_message. by repeat case_match.
  - unfold handle_edit_message. by repeat case_match.
  - unfold handle_mark_seen. by repeat case_match.
  - done.
  - done.
  - unfold handle_image_upload. by repeat case_match.
  - unfold handle_write_done. by repeat case_match.
Qed.

Lemma never_set_unbound c evs :
  never_set_username c evs → currentUsername (run evs).1 !! c = None.
Proof.
  induction evs as [|e evs IH] using rev_ind; intros Hn; [done|].
  apply Forall_app in Hn as [Hn He]. apply Forall_inv in He.
  rewrite run_snoc. simpl. apply unbound_step; [by apply IH|exact He].
Qed.

(** The guarded events of a connection without a name change nothing
    and send nothing. *)
Lemma unbound_inert s c e :
  wf s → currentUsername s !! c = None → needs_bound_name c e = true →
  (step s e).1 = s ∧
  Forall (λ x, is_emit x = false ∧ is_write x = false) (step s e).2.
Proof.
  intros Hwf Hc He.
  assert (Hno : ∀ m, m ∈ messagesHistory s → Message.user m ≠ None).
  { intros m Hm Hu. apply (wf_authors _ Hwf) in Hm. by rewrite Hu in Hm. }
  destruct e; simpl in He; try done; apply bool_decide_eq_true in He as ->; simpl.
  - unfold handle_chat_message. rewrite Hc. simpl. by split.
  - unfold handle_delete_message. rewrite Hc.
    destruct (find_message _ _) as [[i m]|] eqn:Hf.
    + apply find_message_Some in Hf as [Hl _].
      rewrite bool_decide_eq_false_2 by eauto using list_elem_of_lookup_2.
      split; [done|]. by repeat constructor.
    + split; [done|]. by repeat constructor.
  - unfold handle_edit_message. rewrite Hc.
    destruct (find_message _ _) as [[i m]|] eqn:Hf.
    + apply find_message_Some in Hf as [Hl _].
      rewrite bool_decide_eq_false_2 by eauto using list_elem_of_lookup_2.
      split; [done|]. by repeat constructor.
    + split; [done|]. by repeat constructor.
  - unfold handle_image_upload. rewrite Hc. simpl. by split.
Qed.

(** ** The allow-list *)

Lemma allowed_extensions_lower e :
  e ∈ allowed_extensions → toLowerCase e = e.
Proof.
  unfold allowed_extensions. rewrite !elem_of_cons, elem_of_nil.
  intros [->|[->|[->|[->|[->|[->|[]]]]]]]; reflexivity.
Qed.

Lemma extension_in_allowed fileName :
  extension fileName ∈ allowed_extensions → extension_allowed fileName.
Proof.
  intros Hin. apply Exists_exists. exists (extension fileName).
  split; [done|]. rewrite (allowed_extensions_lower _ Hin). reflexivity.
Qed.

(** ** Session registry *)

(** C1 (as amended): on disconnect of a connection of a reachable state,
    the registry loses exactly the entry stored under the name bound to
    that connection, whatever socket id that entry holds, and keeps every
    entry stored under another name; afterwards no entry holds the
    disconnecting connection's id.  The store is untouched, and
    'user disconnected' is sent to all only when a name was bound. *)
Theorem disconnect_releases_bound_name s c :
  reachable s →
  let cur := currentUsername s !! c in
  let r := step s (on_disconnect c) in
  (∀ n, onlineUsers r.1 !! n =
        if decide (cur = Some n) then None else onlineUsers s !! n) ∧
  (∀ n, onlineUsers r.1 !! n ≠ Some c) ∧
  messageCount r.1 = messageCount s ∧
  messagesHistory r.1 = messagesHistory s ∧
  r.2 = Console LogUserDisconnected ::
        match cur with
        | Some name => [IoEmit (UserDisconnected name)]
        | None => []
        end.
Proof.
  intros Hwf%reachable_wf. cbv zeta. simpl. unfold handle_disconnect.
  destruct (currentUsername s !! c) as [name|] eqn:Hcur.
  - assert (truthy (Some name) = true) as ->.
    { apply truthy_Some. exists name. split; [done|]. by eapply wf_names. }
    simpl. split_and!; try done.
    + intros n. case_decide as Hn.
      * injection Hn as ->. apply lookup_delete_eq.
      * apply lookup_delete_ne. congruence.
    + intros n [Hne Hl]%lookup_delete_Some.
      apply (wf_registry _ Hwf) in Hl. congruence.
  - simpl. split_and!; try done.
    intros n Hl. apply (wf_registry _ Hwf) in Hl. congruence.
Qed.

Lemma proto_free_step s e : proto_free s → proto_free (step s e).1.
Proof.
  unfold proto_free. intros Hp. destruct e; simpl; try done.
  - unfold handle_set_username. case_match; simpl; [|done].
    assert (Hreg : match currentUsername s !! c with
                   | Some old =>
                       if truthy (currentUsername s !! c)
                       then delete old (onlineUsers s) else onlineUsers s
                   | None => onlineUsers s
                   end !! "__proto__" = None).
    { repeat case_match; try done. apply lookup_delete_None. by right. }
    destruct (decide (username = "__proto__")) as [->|Hn]; [done|].
    by rewrite lookup_assign_ne.
  - unfold handle_disconnect. repeat case_match; simpl; try done.
    apply lookup_delete_None. by right.
  - unfold handle_chat_message. by case_match.
  - unfold handle_delete_message. by repeat case_match.
  - unfold handle_edit_message. by repeat case_match.
  - unfold handle_mark_seen. by repeat case_match.
  - unfold handle_image_upload. by repeat case_match.
  - unfold handle_write_done. by repeat case_match.
Qed.

Lemma reachable_proto_free s : reachable s → proto_free s.
Proof. induction 1; [done|by apply proto_free_step]. Qed.

(** C2 (as amended): in a reachable state, a set username with the empty
    string, or with the name the connection already holds, does nothing.
    With any other name (whitespace is accepted) it succeeds: the
    connection is bound to [name], the entry stored under the previously
    bound name, if any, is deleted, [registry[name]] becomes the
    connection's id - except for the name [__proto__], under which the
    plain object stores nothing -, no other entry holds the connection's
    id, the store is untouched and the history is sent to the sender
    alone. *)
Theorem set_username_claims_nonempty_name s c name :
  reachable s →
  let cur := currentUsername s !! c in
  let r := step s (on_set_username c name) in
  (name = "" → r = (s, [])) ∧
  (cur = Some name → r = (s, [])) ∧
  (name ≠ "" → cur ≠ Some name →
     (name ≠ "__proto__" → onlineUsers r.1 !! name = Some c) ∧
     (name = "__proto__" → onlineUsers r.1 !! name = None) ∧
     currentUsername r.1 !! c = Some name ∧
     (∀ n, n ≠ name →
           onlineUsers r.1 !! n =
           if decide (cur = Some n) then None else onlineUsers s !! n) ∧
     (∀ n, n ≠ name → onlineUsers r.1 !! n ≠ Some c) ∧
     messageCount r.1 = messageCount s ∧
     messagesHistory r.1 = messagesHistory s ∧
     r.2 = [Console (LogUserSet name c);
            SocketEmit c (LoadHistory (messagesHistory s))]).
Proof.
  intros Hreach. pose proof (reachable_wf _ Hreach) as Hwf.
  pose proof (proto_free_step s (on_set_username c name)
                (reachable_proto_free _ Hreach)) as Hproto.
  pose proof (wf_set_username s c name Hwf) as Hwf'.
  cbv zeta. split_and!.
  - intros ->. reflexivity.
  - intros Hcur. simpl. unfold handle_set_username.
    rewrite (bool_decide_eq_false_2 (Some name ≠ _)) by (by intros []).
    by rewrite andb_false_r.
  - intros Hne Hcur. revert Hproto Hwf'. unfold proto_free. simpl.
    unfold handle_set_username. simpl.
    rewrite !bool_decide_eq_true_2 by congruence. simpl. intros Hproto Hwf'.
    assert (Hother : ∀ n, n ≠ name →
      assign name c
        match currentUsername s !! c with
        | Some old =>
            if truthy (currentUsername s !! c)
            then delete old (onlineUsers s) else onlineUsers s
        | None => onlineUsers s
        end !! n =
      if decide (currentUsername s !! c = Some n) then None
      else onlineUsers s !! n).
    { intros n Hn. rewrite lookup_assign_ne by done.
      destruct (currentUsername s !! c) as [old|] eqn:Hold.
      + assert (truthy (Some old) = true) as ->.
        { apply truthy_Some. exists old. split; [done|].
          exact (wf_names _ Hwf _ _ Hold). }
        case_decide as Ho.
        * injection Ho as ->. apply lookup_delete_eq.
        * apply lookup_delete_ne. congruence.
      + by rewrite decide_False. }
    split_and!; try done.
    + intros Hp. by apply lookup_assign_eq.
    + by intros ->.
    + apply lookup_insert_eq.
    + intros n Hn Hl. apply (wf_registry _ Hwf') in Hl. simpl in Hl.
      rewrite lookup_insert_eq in Hl. congruence.
Qed.

(** ** Message store *)

(** C3: in a reachable state, delete and edit succeed exactly when the
    log holds a message with the requested identifier whose recorded
    author is the requester's bound name.  Then delete removes that
    message (no message with the identifier is left) and edit replaces
    its text by the new text, every other field kept, and the result is
    sent to all connections.  Otherwise the state is unchanged, nothing
    is emitted and the failure is reported on the console. *)
Theorem edit_delete_only_by_author s c x newText :
  reachable s →
  let cur := currentUsername s !! c in
  let h := messagesHistory s in
  (authored_by cur x h →
     truthy cur = true ∧
     ∃ i m, h !! i = Some m ∧ Some (Message.id m) = Number x ∧
       Message.user m = cur ∧
       step s (on_delete_message c x) =
         (mkState (messageCount s) (delete i h) (onlineUsers s)
                  (currentUsername s) (pendingWrites s),
          [IoEmit (DeleteMessage x); Console (LogDeleted x cur)]) ∧
       ¬ message_exists x (delete i h) ∧
       step s (on_edit_message c x newText) =
         (mkState (messageCount s)
                  (<[i := Message.mk (Message.id m) (Message.user m) newText
                                     (Message.replyToId m) (Message.replyToText m)
                                     (Message.timestamp m) (Message.seen m)]> h)
                  (onlineUsers s) (currentUsername s) (pendingWrites s),
          [IoEmit (EditMessageConfirmed x newText); Console (LogEdited x cur)])) ∧
  (¬ authored_by cur x h →
     step s (on_delete_message c x) = (s, [Console (LogDeleteFailed x)]) ∧
     step s (on_edit_message c x newText) = (s, [Console (LogEditFailed x)])).
Proof.
  intros Hwf%reachable_wf. cbv zeta. split.
  - intros (m & Hm & Hx & Hu).
    destruct (find_message_elem_of x _ m (wf_nodup _ Hwf) Hm Hx) as (i & Hl & Hf).
    split; [rewrite <- Hu; by apply (wf_authors _ Hwf)|].
    exists i, m. simpl. unfold handle_delete_message, handle_edit_message.
    rewrite Hf, !bool_decide_eq_true_2 by done. split_and!; try done.
    intros (m' & Hm' & Hx').
    assert (Hin : Message.id m' ∈ delete i (Message.id <$> messagesHistory s)).
    { rewrite <- list_fmap_delete. by apply list_elem_of_fmap_2. }
    rewrite (delete_is_filter _ i (Message.id m)) in Hin;
      [|apply (wf_nodup _ Hwf)|by rewrite list_lookup_fmap, Hl].
    apply list_elem_of_filter in Hin as [Hne _]. congruence.
  - intros Hno. simpl. unfold handle_delete_message, handle_edit_message.
    destruct (find_message _ _) as [[i m]|] eqn:Hf; [|done].
    apply find_message_Some in Hf as [Hl Hx].
    rewrite !bool_decide_eq_false_2; [done|].
    intros Hu. apply Hno. exists m. eauto using list_elem_of_lookup_2.
Qed.

(** C4: along every run from the initial state, the identifiers assigned
    to new messages (text messages and completed uploads alike) are
    0, 1, 2, ... in the order of creation, hence strictly increasing and
    never assigned twice, whatever was deleted in between; the
    identifiers of the log, in its iteration order, are the created ones
    in creation order without exactly those that were deleted; and a
    message appended by a further event gets an identifier above every
    identifier created so far. *)
Theorem identifiers_follow_creation_order evs :
  let s := (run evs).1 in
  let t := (run evs).2 in
  created t = seqZ 0 (messageCount s) ∧
  (∀ i j a b, created t !! i = Some a → created t !! j = Some b →
              (i < j)%nat → a < b) ∧
  NoDup (created t) ∧
  Message.id <$> messagesHistory s = filter (λ k, k ∉ deleted t) (created t) ∧
  (∀ e m, messagesHistory (step s e).1 = messagesHistory s ++ [m] →
          Message.id m = messageCount s ∧
          ∀ k, k ∈ created t → k < Message.id m).
Proof.
  cbv zeta. destruct (run_accounted evs) as [Hc H0 Hd Hh].
  split_and!; [done| |rewrite Hc; apply NoDup_seqZ|done|].
  - intros i j a b. rewrite Hc, !lookup_seqZ. lia.
  - intros e m Happ.
    assert (Hid : Message.id m = messageCount (run evs).1).
    { destruct (step_store_change (run evs).1 e)
        as [_ Hi _ _|m' _ Hi Hid _ _|i m' _ Hl Hi _ _].
      - apply (f_equal length) in Hi. rewrite Happ in Hi.
        rewrite !length_fmap, length_app in Hi. simpl in Hi. lia.
      - rewrite Happ in Hi. by apply app_inv_head in Hi as [= ->].
      - apply (f_equal length) in Hi. rewrite Happ in Hi.
        rewrite length_app, length_delete in Hi by eauto. simpl in Hi. lia. }
    split; [done|]. intros k. rewrite Hid, Hc, elem_of_seqZ. lia.
Qed.


(** C6: along every run, for a connection that never sent a set username
    the handler accepted, a chat message, delete message, edit message or
    image upload of that connection leaves the whole state (registry,
    store, writes in flight) as it was, emits nothing to anybody and
    starts no file write. *)
Theorem unbound_connection_is_inert evs c e :
  never_set_username c evs → needs_bound_name c e = true →
  let s := (run evs).1 in
  currentUsername s !! c = None ∧
  (step s e).1 = s ∧
  Forall (λ x, is_emit x = false ∧ is_write x = false) (step s e).2.
Proof.
  intros Hnever He. cbv zeta.
  pose proof (never_set_unbound c evs Hnever) as Hc.
  split; [done|].
  apply (unbound_inert _ c); [|done..].
  apply reachable_wf, run_reachable.
Qed.

(** ** Image upload *)

(** C7: an upload whose declared file name does not end, letter case
    aside, in an extension of the allow-list is dropped: the state is
    unchanged (no message, no write in flight), no file write is started
    and nothing is emitted, whatever the payload. *)
Theorem disallowed_extension_rejected s c fileData fileName stem :
  ¬ extension_allowed fileName →
  let r := step s (on_image_upload c fileData fileName stem) in
  r.1 = s ∧ Forall (λ x, is_emit x = false ∧ is_write x = false) r.2.
Proof.
  intros Hext. cbv zeta. simpl. unfold handle_image_upload.
  destruct (truthy _); simpl; [|by split].
  rewrite bool_decide_eq_false_2 by eauto using extension_in_allowed.
  simpl. split; [done|]. by repeat constructor.
Qed.

(** C8: the handler of image upload never touches the message store and
    emits nothing; it can only start a file write.  The store changes in
    the callback of that write: on an error the store is untouched and
    nothing is emitted; on success the callback takes the next
    identifier, pushes the message and sends it to all connections, in
    that one step.  A completion for a write that is not in flight does
    nothing. *)
Theorem upload_message_only_after_write s :
  (∀ c fileData fileName stem,
     let r := step s (on_image_upload c fileData fileName stem) in
     messageCount r.1 = messageCount s ∧
     messagesHistory r.1 = messagesHistory s ∧
     onlineUsers r.1 = onlineUsers s ∧
     Forall (λ x, is_emit x = false) r.2 ∧
     (pendingWrites r.1 = pendingWrites s ∧ Forall (λ x, is_write x = false) r.2
      ∨ pendingWrites r.1 =
          pendingWrites s ++ [(c, stem +:+ "." +:+ extension fileName)] ∧
        r.2 = [WriteFile ("uploads/" +:+ stem +:+ "." +:+ extension fileName)
                         (base64Data fileData)])) ∧
  (∀ k now,
     let r := step s (on_write_done k true now) in
     messageCount r.1 = messageCount s ∧
     messagesHistory r.1 = messagesHistory s ∧
     Forall (λ x, is_emit x = false) r.2) ∧
  (∀ k c newFileName now,
     pendingWrites s !! k = Some (c, newFileName) →
     let m := Message.mk (messageCount s) (currentUsername s !! c)
                         ("/uploads/" +:+ newFileName) None None now false in
     step s (on_write_done k false now) =
       (mkState (messageCount s + 1) (messagesHistory s ++ [m])
                (onlineUsers s) (currentUsername s) (delete k (pendingWrites s)),
        [IoEmit (ChatMessage m); Console (LogImageSaved newFileName)])) ∧
  (∀ k err now,
     pendingWrites s !! k = None → step s (on_write_done k err now) = (s, [])).
Proof.
  split_and!.
  - intros c fileData fileName stem. cbv zeta. simpl. unfold handle_image_upload.
    destruct (truthy _); simpl.
    + case_bool_decide; simpl; split_and!; try done.
      * by repeat constructor.
      * by right.
      * by repeat constructor.
      * left. split; [done|]. by repeat constructor.
    + split_and!; try done. by left.
  - intros k now. cbv zeta. simpl. unfold handle_write_done.
    destruct (pendingWrites s !! k) as [[c f]|]; simpl; split_and!; try done.
    by repeat constructor.
  - intros k c f now Hk. cbv zeta. simpl. unfold handle_write_done.
    by rewrite Hk.
  - intros k err now Hk. simpl. unfold handle_write_done. by rewrite Hk.
Qed.

(** ** Edit *)

(** C9: when edit succeeds on a message, the message keeps its
    identifier, author, timestamp, reply identifier, reply text and seen
    flag, and gets the new text; every other position of the log, the
    counter, the registry, the bound names and the writes in flight are
    the same as before. *)
Theorem edit_changes_only_the_text s c x newText i m :
  find_message x (messagesHistory s) = Some (i, m) →
  Message.user m = currentUsername s !! c →
  let s' := (step s (on_edit_message c x newText)).1 in
  (∃ m', messagesHistory s' !! i = Some m' ∧
     Message.text m' = newText ∧
     Message.id m' = Message.id m ∧
     Message.user m' = Message.user m ∧
     Message.timestamp m' = Message.timestamp m ∧
     Message.replyToId m' = Message.replyToId m ∧
     Message.replyToText m' = Message.replyToText m ∧
     Message.seen m' = Message.seen m) ∧
  length (messagesHistory s') = length (messagesHistory s) ∧
  (∀ j, j ≠ i → messagesHistory s' !! j = messagesHistory s !! j) ∧
  messageCount s' = messageCount s ∧
  onlineUsers s' = onlineUsers s ∧
  currentUsername s' = currentUsername s ∧
  pendingWrites s' = pendingWrites s.
Proof.
  intros Hf Hu. cbv zeta. simpl. unfold handle_edit_message.
  rewrite Hf, bool_decide_eq_true_2 by done. simpl.
  apply find_message_Some in Hf as [Hl _].
  split_and!; try done.
  - exists (Message.set_text newText m). split_and!; try done.
    apply list_lookup_insert_eq. by eapply lookup_lt_Some.
  - apply length_insert.
  - intros j Hj. by apply list_lookup_insert_ne.
Qed.

(** ** Mark seen without a name *)

(** C10: in a reachable state, a connection that holds no name can mark
    any unseen message of the log as seen: the message's seen flag
    becomes true, its other fields and the rest of the state being kept,
    and the identifier is sent to all connections.  The events guarded by the
    bound name (chat message, delete, edit, image upload) change nothing
    for such a connection. *)
Theorem unbound_connection_marks_seen s c x m :
  reachable s → currentUsername s !! c = None →
  m ∈ messagesHistory s → Message.seen m = false →
  Number x = Some (Message.id m) →
  (∃ i, messagesHistory s !! i = Some m ∧
     step s (on_mark_seen c x) =
       (mkState (messageCount s)
                (<[i := Message.mk (Message.id m) (Message.user m)
                                   (Message.text m) (Message.replyToId m)
                                   (Message.replyToText m) (Message.timestamp m)
                                   true]> (messagesHistory s))
                (onlineUsers s) (currentUsername s) (pendingWrites s),
        [IoEmit (MessageSeen (Message.id m))])) ∧
  (∀ e, needs_bound_name c e = true → (step s e).1 = s).
Proof.
  intros Hwf%reachable_wf Hc Hm Hs Hx. split.
  - destruct (find_message_elem_of x _ m (wf_nodup _ Hwf) Hm (eq_sym Hx))
      as (i & Hl & Hf).
    exists i. split; [done|]. simpl. unfold handle_mark_seen.
    rewrite Hf, Hs, Hc. simpl. rewrite bool_decide_eq_true_2; [done|].
    intros Hu. apply (wf_authors _ Hwf) in Hm. by rewrite Hu in Hm.
  - intros e He. by apply (unbound_inert s c e).
Qed.

(** ** More on the registry and the bound names *)

(** X1: in a reachable state a connection's id is stored under at most
    one name of the registry, and that name is the one bound to the
    connection. *)
Theorem registry_holds_connection_once s c n1 n2 :
  reachable s →
  onlineUsers s !! n1 = Some c → onlineUsers s !! n2 = Some c →
  n1 = n2 ∧ currentUsername s !! c = Some n1.
Proof.
  intros Hwf%reachable_wf H1 H2.
  apply (wf_registry _ Hwf) in H1, H2. split; [congruence|done].
Qed.

Lemma step_with_registry registry s e :
  (step (with_registry registry s) e).2 = (step s e).2 ∧
  ∃ registry',
    (step (with_registry registry s) e).1 = with_registry registry' (step s e).1.
Proof.
  destruct e; simpl.
  - unfold handle_set_username. simpl. case_match; simpl; eauto.
  - unfold handle_disconnect. simpl. repeat case_match; simpl; eauto.
  - unfold handle_chat_message. simpl. case_match; simpl; eauto.
  - unfold handle_delete_message. simpl. repeat case_match; simpl; eauto.
  - unfold handle_edit_message. simpl. repeat case_match; simpl; eauto.
  - unfold handle_mark_seen. simpl. repeat case_match; simpl; eauto.
  - eauto.
  - eauto.
  - unfold handle_image_upload. simpl. repeat case_match; simpl; eauto.
  - unfold handle_write_done. simpl. repeat case_match; simpl; eauto.
Qed.

(** X2: [onlineUsers] is written and never read: started with any other
    registry, a run performs the same effects and ends in the same
    counter, log, bound names and writes in flight. *)
Theorem registry_is_never_read registry s t evs :
  (run_from (with_registry registry s) t evs).2 = (run_from s t evs).2 ∧
  ∃ registry',
    (run_from (with_registry registry s) t evs).1 =
    with_registry registry' (run_from s t evs).1.
Proof.
  revert registry s t. induction evs as [|e evs IH]; intros registry s t.
  - simpl. split; [done|]. by exists registry.
  - unfold run_from in *. simpl.
    destruct (step_with_registry registry s e) as [-> [registry' ->]].
    apply IH.
Qed.

(** X3: a set username repeated by the same connection with the same
    name does nothing the second time; in particular no second history
    is sent and the registry is not written again. *)
Theorem set_username_twice s c name :
  let s1 := (step s (on_set_username c name)).1 in
  step s1 (on_set_username c name) = (s1, []).
Proof.
  cbv zeta. simpl.
  destruct (truthy (Some name) &&
            bool_decide (Some name ≠ currentUsername s !! c)) eqn:Hg.
  - assert (Hs : currentUsername (handle_set_username s c name).1 !! c = Some name).
    { unfold handle_set_username. rewrite Hg. simpl. apply lookup_insert_eq. }
    unfold handle_set_username at 1. rewrite Hs.
    rewrite (bool_decide_eq_false_2 (Some name ≠ Some name)) by (by intros []).
    by rewrite andb_false_r.
  - assert (Hs : handle_set_username s c name = (s, [])).
    { unfold handle_set_username. by rewrite Hg. }
    rewrite Hs. simpl. exact Hs.
Qed.

(** X4: chat message, delete message, edit message and mark seen look at
    the sending connection only through the name bound to it: two
    connections bound to the same name (the second one re-claimed it) get
    the same result from each of them. *)
Theorem same_name_same_rights s a b :
  currentUsername s !! a = currentUsername s !! b →
  (∀ text replyToId replyToText now,
     step s (on_chat_message a text replyToId replyToText now) =
     step s (on_chat_message b text replyToId replyToText now)) ∧
  (∀ x, step s (on_delete_message a x) = step s (on_delete_message b x)) ∧
  (∀ x newText,
     step s (on_edit_message a x newText) = step s (on_edit_message b x newText)) ∧
  (∀ x, step s (on_mark_seen a x) = step s (on_mark_seen b x)).
Proof.
  intros Hab. simpl.
  unfold handle_chat_message, handle_delete_message, handle_edit_message,
    handle_mark_seen.
  rewrite Hab. done.
Qed.

Lemma bound_step s c e :
  is_Some (currentUsername s !! c) → is_Some (currentUsername (step s e).1 !! c).
Proof.
  intros Hc. destruct e; simpl; try done.
  - unfold handle_set_username. case_match; simpl; [|done].
    rewrite lookup_insert_is_Some. destruct (decide (c0 = c)); eauto.
  - unfold handle_disconnect. by repeat case_match.
  - unfold handle_chat_message. by case_match.
  - unfold handle_delete_message. by repeat case_match.
  - unfold handle_edit_message. by repeat case_match.
  - unfold handle_mark_seen. by repeat case_match.
  - unfold handle_image_upload. by repeat case_match.
  - unfold handle_write_done. by repeat case_match.
Qed.

Lemma wf_run_from s t evs : wf s → wf (run_from s t evs).1.
Proof.
  revert s t. induction evs as [|e evs IH]; intros s t Hwf; [done|].
  apply IH. simpl. by apply wf_step.
Qed.

(** X5: a connection that holds a name in a reachable state holds a
    non-empty name ever after: no event, not even its disconnect, resets
    the name to null. *)
Theorem bound_name_is_never_cleared s t c evs :
  reachable s → is_Some (currentUsername s !! c) →
  ∃ n, currentUsername (run_from s t evs).1 !! c = Some n ∧ n ≠ "".
Proof.
  intros Hwf%reachable_wf Hc.
  assert (Hs : is_Some (currentUsername (run_from s t evs).1 !! c)).
  { clear Hwf. revert s t Hc. induction evs as [|e evs IH]; intros s t Hc; [done|].
    apply IH. simpl. by apply bound_step. }
  destruct Hs as [n Hn]. exists n. split; [done|].
  eapply wf_names; [|exact Hn]. by apply wf_run_from.
Qed.

(** ** Relays *)

Lemma run_from_state_irrelevant_trace s t t' evs :
  (run_from s t evs).1 = (run_from s t' evs).1.
Proof.
  revert s t t'. induction evs as [|e evs IH]; intros s t t'; [done|].
  apply IH.
Qed.

Lemma step_relay_free s e :
  is_typing e = false → filter (λ x, is_relay x = false) (step s e).2 = (step s e).2.
Proof.
  intros He. destruct e; simpl in *; try done.
  - unfold handle_set_username. by case_match.
  - unfold handle_disconnect. by repeat case_match.
  - unfold handle_chat_message. by case_match.
  - unfold handle_delete_message. by repeat case_match.
  - unfold handle_edit_message. by repeat case_match.
  - unfold handle_mark_seen. by repeat case_match.
  - unfold handle_image_upload. by repeat case_match.
  - unfold handle_write_done. by repeat case_match.
Qed.

Lemma run_from_without_typing s t evs :
  run_from s (filter (λ x, is_relay x = false) t)
           (filter (λ e, is_typing e = false) evs) =
  ((run_from s t evs).1, filter (λ x, is_relay x = false) (run_from s t evs).2).
Proof.
  revert s t. induction evs as [|e evs IH]; intros s t; [done|].
  destruct (is_typing e) eqn:He.
  - rewrite filter_cons_False by (by rewrite He).
    change (run_from s t (e :: evs))
      with (run_from (step s e).1 (t ++ (step s e).2) evs).
    rewrite <- IH. destruct e; try done; simpl; by rewrite filter_app, app_nil_r.
  - rewrite filter_cons_True by done.
    change (run_from s t (e :: evs))
      with (run_from (step s e).1 (t ++ (step s e).2) evs).
    rewrite <- IH, filter_app, step_relay_free by done. done.
Qed.

(** X6: typing and stop typing are pure relays: leaving them out of a
    run gives the same final state, and the same effects without the
    emissions made to everybody but the sender. *)
Theorem typing_is_a_pure_relay evs :
  run (filter (λ e, is_typing e = false) evs) =
  ((run evs).1, filter (λ x, is_relay x = false) (run evs).2).
Proof. apply (run_from_without_typing init []). Qed.

(** ** More on the message store *)

Lemma keeps_record_append m0 s m pending :
  keeps_record m0 s → Message.id m = messageCount s →
  keeps_record m0 (mkState (messageCount s + 1) (messagesHistory s ++ [m])
                           (onlineUsers s) (currentUsername s) pending).
Proof.
  intros [Hk Hs] Hid. split; simpl; [lia|].
  intros m' [?| ->%list_elem_of_singleton]%elem_of_app ?; [eauto|lia].
Qed.

Lemma keeps_record_replace m0 s i m m' :
  keeps_record m0 s → messagesHistory s !! i = Some m →
  same_record m m' → (Message.seen m = true → Message.seen m' = true) →
  keeps_record m0 (mkState (messageCount s) (<[i := m']> (messagesHistory s))
                           (onlineUsers s) (currentUsername s) (pendingWrites s)).
Proof.
  intros [Hk Hs] Hl (Hid & Hu & Ht & Hr & Hrt) Hseen. split; simpl; [done|].
  intros x [->|?]%elem_of_insert_inv Hx; [|eauto].
  destruct (Hs m) as [(? & ? & ? & ? & ?) ?];
    [by eapply list_elem_of_lookup_2|congruence|].
  split; [unfold same_record; split_and!; congruence|auto].
Qed.

Lemma keeps_record_step m0 s e :
  keeps_record m0 s → keeps_record m0 (step s e).1.
Proof.
  intros Hkr. pose proof Hkr as [Hk Hs]. destruct e; simpl; try done.
  - unfold handle_set_username. by case_match.
  - unfold handle_disconnect. by repeat case_match.
  - unfold handle_chat_message. case_match; simpl; [done|].
    by apply keeps_record_append.
  - unfold handle_delete_message.
    destruct (find_message _ _) as [[i m]|]; [|done].
    case_bool_decide; [|done]. split; simpl; [done|].
    intros m' ?%list_elem_of_delete_inv. eauto.
  - unfold handle_edit_message.
    destruct (find_message _ _) as [[i m]|] eqn:Hf; [|done].
    case_bool_decide; [|done]. apply find_message_Some in Hf as [Hl _].
    by eapply keeps_record_replace.
  - unfold handle_mark_seen.
    destruct (find_message _ _) as [[i m]|] eqn:Hf; [|done].
    case_match; [|done]. apply find_message_Some in Hf as [Hl _].
    by eapply keeps_record_replace.
  - unfold handle_image_upload. by repeat case_match.
  - unfold handle_write_done.
    destruct (pendingWrites s !! k) as [[c f]|]; [|done].
    destruct err; simpl; [done|]. by apply keeps_record_append.
Qed.

Lemma keeps_record_run_from m0 s t evs :
  keeps_record m0 s → keeps_record m0 (run_from s t evs).1.
Proof.
  revert s t. induction evs as [|e evs IH]; intros s t Hkr; [done|].
  apply IH. simpl. by apply keeps_record_step.
Qed.

Lemma same_id_same_message (h : list Message.t) i j m m' :
  NoDup (Message.id <$> h) → h !! i = Some m → h !! j = Some m' →
  Message.id m' = Message.id m → j = i ∧ m' = m.
Proof.
  intros Hnd Hi Hj Hid.
  assert (j = i) as ->; [|split; congruence].
  apply (NoDup_lookup _ j i (Message.id m) Hnd).
  - rewrite list_lookup_fmap, Hj. simpl. by rewrite Hid.
  - by rewrite list_lookup_fmap, Hi.
Qed.

Lemma keeps_record_start s m :
  wf s → m ∈ messagesHistory s → keeps_record m s.
Proof.
  intros Hwf Hm. split; [by apply (wf_ids _ Hwf)|].
  intros m' Hm' Hid.
  apply list_elem_of_lookup_1 in Hm as [i Hi], Hm' as [j Hj].
  destruct (same_id_same_message _ i j m m' (wf_nodup _ Hwf) Hi Hj Hid)
    as [_ ->].
  done.
Qed.

(** X7: whatever happens after a message is in the log of a reachable
    state (edits, renames of its author, other messages), a message of
    the later log with the same identifier has the same author,
    timestamp, reply identifier and reply text: only the text and the
    seen flag of a message ever change. *)
Theorem message_record_is_stable s t evs m m' :
  reachable s → m ∈ messagesHistory s →
  m' ∈ messagesHistory (run_from s t evs).1 → Message.id m' = Message.id m →
  same_record m m'.
Proof.
  intros Hwf%reachable_wf Hm Hm' Hid.
  destruct (keeps_record_run_from m s t evs (keeps_record_start s m Hwf Hm))
    as [_ Hs].
  by apply Hs.
Qed.

(** X8: the seen flag only goes from false to true: a message that is
    seen in a reachable state is seen in every later log that still holds
    it. *)
Theorem seen_is_monotone s t evs m m' :
  reachable s → m ∈ messagesHistory s → Message.seen m = true →
  m' ∈ messagesHistory (run_from s t evs).1 → Message.id m' = Message.id m →
  Message.seen m' = true.
Proof.
  intros Hwf%reachable_wf Hm Hseen Hm' Hid.
  destruct (keeps_record_run_from m s t evs (keeps_record_start s m Hwf Hm))
    as [_ Hs].
  by apply Hs.
Qed.

(** X9: a message leaves the log only through a delete message for its
    identifier sent by a connection bound to its author's name: if a
    step from a reachable state makes the identifier of a message
    disappear from the log, the event was such a delete. *)
Theorem only_the_author_deletes s e m :
  reachable s → m ∈ messagesHistory s →
  (∀ m', m' ∈ messagesHistory (step s e).1 → Message.id m' ≠ Message.id m) →
  ∃ c x, e = on_delete_message c x ∧ Number x = Some (Message.id m) ∧
         currentUsername s !! c = Message.user m.
Proof.
  intros Hwf%reachable_wf Hm Hgone.
  assert (Hsame : ∀ h', (∀ k, k ∈ Message.id <$> messagesHistory s →
                              k ∈ Message.id <$> h') →
                        messagesHistory (step s e).1 = h' → False).
  { intros h' Hsub Heq.
    destruct (proj1 (list_elem_of_fmap _ _ _)
                (Hsub _ (list_elem_of_fmap_2 Message.id _ _ Hm)))
      as (m' & Hid & Hm').
    rewrite <- Heq in Hm'. by apply (Hgone m'). }
  destruct e; simpl in *.
  - exfalso. eapply Hsame; [|done]. unfold handle_set_username.
    by case_match.
  - exfalso. eapply Hsame; [|done]. unfold handle_disconnect.
    by repeat case_match.
  - exfalso. eapply Hsame; [|done]. unfold handle_chat_message.
    case_match; simpl; [done|]. intros k Hk. rewrite fmap_app.
    apply elem_of_app. by left.
  - revert Hgone Hsame. unfold handle_delete_message.
    destruct (find_message _ _) as [[i m0]|] eqn:Hf;
      [|intros _ Hsame; exfalso; by eapply Hsame].
    case_bool_decide as Hu; [|intros _ Hsame; exfalso; by eapply Hsame].
    simpl. intros Hgone _. apply find_message_Some in Hf as [Hl Hx].
    exists c, messageId.
    destruct (decide (Message.id m0 = Message.id m)) as [Heq|Hne].
    + apply list_elem_of_lookup_1 in Hm as [j Hj].
      destruct (same_id_same_message _ j i m m0 (wf_nodup _ Hwf) Hj Hl Heq)
        as [_ ->].
      split_and!; [done|congruence|done].
    + exfalso.
      assert (Hin : Message.id m ∈ delete i (Message.id <$> messagesHistory s)).
      { rewrite (delete_is_filter _ i (Message.id m0));
          [|apply (wf_nodup _ Hwf)|by rewrite list_lookup_fmap, Hl].
        apply list_elem_of_filter. split; [congruence|].
        by apply list_elem_of_fmap_2. }
      rewrite <- list_fmap_delete in Hin.
      apply list_elem_of_fmap in Hin as (m' & Hid & Hm'). by apply (Hgone m').
  - exfalso. eapply Hsame; [|done]. unfold handle_edit_message.
    destruct (find_message _ _) as [[i m0]|] eqn:Hf; [|done].
    case_bool_decide; [|done]. simpl. apply find_message_Some in Hf as [Hl _].
    by rewrite (fmap_id_insert _ i m0).
  - exfalso. eapply Hsame; [|done]. unfold handle_mark_seen.
    destruct (find_message _ _) as [[i m0]|] eqn:Hf; [|done].
    case_match; [|done]. simpl. apply find_message_Some in Hf as [Hl _].
    by rewrite (fmap_id_insert _ i m0).
  - exfalso. by eapply Hsame.
  - exfalso. by eapply Hsame.
  - exfalso. eapply Hsame; [|done]. unfold handle_image_upload.
    by repeat case_match.
  - exfalso. eapply Hsame; [|done]. unfold handle_write_done.
    destruct (pendingWrites s !! k) as [[c f]|]; [|done].
    destruct err; simpl; [done|]. intros k' Hk. rewrite fmap_app.
    apply elem_of_app. by left.
Qed.

Lemma log_balance_step s t e :
  Z.of_nat (length (messagesHistory s)) + Z.of_nat (length (deleted t)) =
    messageCount s →
  Z.of_nat (length (messagesHistory (step s e).1)) +
  Z.of_nat (length (deleted (t ++ (step s e).2))) = messageCount (step s e).1.
Proof.
  intros Hb. rewrite deleted_app, length_app.
  destruct (step_store_change s e)
    as [Hn Hi _ Hde|m Hn Hi _ _ Hde|i m Hn Hl Hi _ Hde]; rewrite Hde, Hn.
  - apply (f_equal length) in Hi. rewrite !length_fmap in Hi.
    rewrite Hi. simpl. lia.
  - rewrite Hi, length_app. simpl. lia.
  - rewrite Hi, length_delete by eauto. simpl.
    apply lookup_lt_Some in Hl. lia.
Qed.

(** X10: at every point of a run, the number of messages in the log plus
    the number of successful deletes equals the counter: every
    identifier below [messageCount] was created once and is either in
    the log or was deleted once. *)
Theorem log_size_balance evs :
  Z.of_nat (length (messagesHistory (run evs).1)) +
  Z.of_nat (length (deleted (run evs).2)) = messageCount (run evs).1.
Proof.
  induction evs as [|e evs IH] using rev_ind; [done|].
  rewrite run_snoc. simpl. by apply log_balance_step.
Qed.

(** X11: the only emission addressed to a single connection is the
    history: a step sends something to connection [c] alone exactly when
    [c] sends a set username with a non-empty name other than its bound
    name, and what is sent is the log as it is at that moment. *)
Theorem history_is_the_only_unicast s e c o :
  SocketEmit c o ∈ (step s e).2 ↔
  ∃ name, e = on_set_username c name ∧ name ≠ "" ∧
          currentUsername s !! c ≠ Some name ∧
          o = LoadHistory (messagesHistory s).
Proof.
  split.
  - destruct e; simpl.
    + unfold handle_set_username. case_match eqn:Hg; [|by intros ?%elem_of_nil].
      apply andb_true_iff in Hg as [Hn%bool_decide_eq_true Hc%bool_decide_eq_true].
      simpl. rewrite !elem_of_cons, elem_of_nil. intros [?|[[= -> ->]|[]]]; [done|].
      exists username. split_and!; try done; congruence.
    + unfold handle_disconnect.
      repeat case_match; simpl; rewrite ?elem_of_cons, ?elem_of_nil; naive_solver.
    + unfold handle_chat_message.
      repeat case_match; simpl; rewrite ?elem_of_cons, ?elem_of_nil; naive_solver.
    + unfold handle_delete_message.
      repeat case_match; simpl; rewrite ?elem_of_cons, ?elem_of_nil; naive_solver.
    + unfold handle_edit_message.
      repeat case_match; simpl; rewrite ?elem_of_cons, ?elem_of_nil; naive_solver.
    + unfold handle_mark_seen.
      repeat case_match; simpl; rewrite ?elem_of_cons, ?elem_of_nil; naive_solver.
    + simpl; rewrite ?elem_of_cons, ?elem_of_nil; naive_solver.
    + simpl; rewrite ?elem_of_cons, ?elem_of_nil; naive_solver.
    + unfold handle_image_upload.
      repeat case_match; simpl; rewrite ?elem_of_cons, ?elem_of_nil; naive_solver.
    + unfold handle_write_done.
      repeat case_match; simpl; rewrite ?elem_of_cons, ?elem_of_nil; naive_solver.
  - intros (name & -> & Hn & Hc & ->). simpl. unfold handle_set_username.
    simpl. rewrite !bool_decide_eq_true_2 by congruence. simpl.
    right. left.
Qed.

(** ** More on the image upload *)

Lemma extension_allowed_in fileName :
  extension_allowed fileName → extension fileName ∈ allowed_extensions.
Proof.
  intros (e & He & Heq)%Exists_exists.
  rewrite (allowed_extensions_lower _ He) in Heq.
  unfold extension. by rewrite Heq.
Qed.

(** X12: a file write is started exactly by an image upload of a
    connection that holds a name, with a file name whose extension is
    allowed, letter case aside; the file is then written under
    [uploads/], named by the stem and the lower-cased extension, with
    the part of the payload after its last [;base64,] marker.  No other
    event, and no other upload, writes a file. *)
Theorem file_written_iff s e filePath data :
  WriteFile filePath data ∈ (step s e).2 ↔
  ∃ c fileData fileName stem,
    e = on_image_upload c fileData fileName stem ∧
    truthy (currentUsername s !! c) = true ∧
    extension_allowed fileName ∧
    extension fileName ∈ allowed_extensions ∧
    filePath = "uploads/" +:+ stem +:+ "." +:+ extension fileName ∧
    data = base64Data fileData.
Proof.
  split.
  - destruct e; simpl.
    + unfold handle_set_username.
      repeat case_match; simpl; rewrite ?elem_of_cons, ?elem_of_nil; naive_solver.
    + unfold handle_disconnect.
      repeat case_match; simpl; rewrite ?elem_of_cons, ?elem_of_nil; naive_solver.
    + unfold handle_chat_message.
      repeat case_match; simpl; rewrite ?elem_of_cons, ?elem_of_nil; naive_solver.
    + unfold handle_delete_message.
      repeat case_match; simpl; rewrite ?elem_of_cons, ?elem_of_nil; naive_solver.
    + unfold handle_edit_message.
      repeat case_match; simpl; rewrite ?elem_of_cons, ?elem_of_nil; naive_solver.
    + unfold handle_mark_seen.
      repeat case_match; simpl; rewrite ?elem_of_cons, ?elem_of_nil; naive_solver.
    + rewrite ?elem_of_cons, ?elem_of_nil; naive_solver.
    + rewrite ?elem_of_cons, ?elem_of_nil; naive_solver.
    + unfold handle_image_upload.
      destruct (truthy _) eqn:Ht; simpl; [|by intros ?%elem_of_nil].
      case_bool_decide as Hext; simpl.
      * intros [= -> ->]%list_elem_of_singleton.
        exists c, fileData, fileName, stem.
        split_and!; try done. by apply extension_in_allowed.
      * rewrite ?elem_of_cons, ?elem_of_nil; naive_solver.
    + unfold handle_write_done.
      repeat case_match; simpl; rewrite ?elem_of_cons, ?elem_of_nil; naive_solver.
  - intros (c & fileData & fileName & stem & -> & Ht & _ & Hext & -> & ->).
    simpl. unfold handle_image_upload. rewrite Ht. simpl.
    rewrite bool_decide_eq_true_2 by done. simpl. left.
Qed.

Lemma writes_balance_step s t e :
  (length (pendingWrites s) + length (filter (λ x, is_completion x = true) t)
   = length (filter (λ x, is_write x = true) t))%nat →
  (length (pendingWrites (step s e).1) +
   length (filter (λ x, is_completion x = true) (t ++ (step s e).2))
   = length (filter (λ x, is_write x = true) (t ++ (step s e).2)))%nat.
Proof.
  intros Hb. rewrite !filter_app, !length_app.
  destruct e; simpl.
  - unfold handle_set_username. case_match; simpl; lia.
  - unfold handle_disconnect. repeat case_match; simpl; lia.
  - unfold handle_chat_message. case_match; simpl; lia.
  - unfold handle_delete_message. repeat case_match; simpl; lia.
  - unfold handle_edit_message. repeat case_match; simpl; lia.
  - unfold handle_mark_seen. repeat case_match; simpl; lia.
  - simpl. lia.
  - simpl. lia.
  - unfold handle_image_upload. repeat case_match; simpl;
      rewrite ?length_app; simpl; lia.
  - unfold handle_write_done.
    destruct (pendingWrites s !! k) as [[c f]|] eqn:Hk; [|simpl; lia].
    apply lookup_lt_Some in Hk.
    destruct err; simpl; rewrite length_delete by eauto using lookup_lt_is_Some_2;
      lia.
Qed.

(** X13: along every run, the file writes started are those still in
    flight plus those whose callback has run: a callback runs at most
    once for a write, and only for a write that was started. *)
Theorem writes_balance evs :
  (length (pendingWrites (run evs).1) +
   length (filter (λ x, is_completion x = true) (run evs).2)
   = length (filter (λ x, is_write x = true) (run evs).2))%nat.
Proof.
  induction evs as [|e evs IH] using rev_ind; [done|].
  rewrite run_snoc. simpl. by apply writes_balance_step.
Qed.

(** X14: the author of an image message is the name the uploader holds
    when the write completes, not the one held when the upload was sent:
    if the connection takes another name while its write is in flight,
    the message is recorded and broadcast under the new name. *)
Theorem upload_author_is_read_at_completion s c name k newFileName now :
  name ≠ "" → pendingWrites s !! k = Some (c, newFileName) →
  let s1 := (step s (on_set_username c name)).1 in
  let m := Message.mk (messageCount s) (Some name)
                      ("/uploads/" +:+ newFileName) None None now false in
  messagesHistory (step s1 (on_write_done k false now)).1 =
    messagesHistory s ++ [m] ∧
  (step s1 (on_write_done k false now)).2 =
    [IoEmit (ChatMessage m); Console (LogImageSaved newFileName)].
Proof.
  intros Hn Hk. cbv zeta.
  assert (Hs1 : pendingWrites (step s (on_set_username c name)).1 = pendingWrites s
                ∧ messageCount (step s (on_set_username c name)).1 = messageCount s
                ∧ messagesHistory (step s (on_set_username c name)).1 = messagesHistory s
                ∧ currentUsername (step s (on_set_username c name)).1 !! c = Some name).
  { simpl. unfold handle_set_username. simpl.
    rewrite (bool_decide_eq_true_2 (name ≠ "")) by done. simpl.
    case_bool_decide as Hc; simpl; split_and!; try done.
    apply lookup_insert_eq. }
  destruct Hs1 as (Hp & Hcount & Hh & Hcur).
  simpl in Hp, Hcount, Hh, Hcur |- *.
  unfold handle_write_done. rewrite Hp, Hk, Hcount, Hh, Hcur. done.
Qed.

(** X15: a disconnect does not cancel a write in flight: when the write
    of a connection of a reachable state completes after the connection
    has disconnected, the message is still appended and sent to all,
    under the name of the connection, whose registry entry is gone. *)
Theorem upload_completes_after_disconnect s c k newFileName now :
  reachable s → pendingWrites s !! k = Some (c, newFileName) →
  let s1 := (step s (on_disconnect c)).1 in
  ∃ name, currentUsername s !! c = Some name ∧ name ≠ "" ∧
    onlineUsers s1 !! name = None ∧
    let m := Message.mk (messageCount s) (Some name)
                        ("/uploads/" +:+ newFileName) None None now false in
    messagesHistory (step s1 (on_write_done k false now)).1 =
      messagesHistory s ++ [m] ∧
    (step s1 (on_write_done k false now)).2 =
      [IoEmit (ChatMessage m); Console (LogImageSaved newFileName)].
Proof.
  intros Hwf%reachable_wf Hk. cbv zeta.
  destruct (wf_pending _ Hwf c newFileName) as [name Hname];
    [by eapply list_elem_of_lookup_2|].
  pose proof (wf_names _ Hwf _ _ Hname) as Hne.
  exists name. split; [done|]. split; [done|].
  simpl. unfold handle_disconnect. rewrite Hname. simpl.
  rewrite bool_decide_eq_true_2 by done. simpl.
  split; [apply lookup_delete_eq|].
  unfold handle_write_done. simpl. rewrite Hk, Hname. done.
Qed.

(** ** Splitting file names and payloads *)

Lemma string_app_cons a (u v : string) : String a u +:+ v = String a (u +:+ v).
Proof. reflexivity. Qed.

Lemma string_app_nil_l (v : string) : "" +:+ v = v.
Proof. reflexivity. Qed.

Lemma string_app_nil_r (u : string) : u +:+ "" = u.
Proof.
  induction u as [|a u IH]; [done|]. by rewrite string_app_cons, IH.
Qed.

Lemma string_app_assoc (u v w : string) : (u +:+ v) +:+ w = u +:+ v +:+ w.
Proof.
  induction u as [|a u IH]; [done|]. by rewrite !string_app_cons, IH.
Qed.

Lemma string_app_length (u v : string) :
  String.length (u +:+ v) = (String.length u + String.length v)%nat.
Proof.
  induction u as [|a u IH]; [done|]. rewrite string_app_cons. simpl. by rewrite IH.
Qed.

Lemma prefix_app (u r : string) : String.prefix u (u +:+ r) = true.
Proof.
  induction u as [|a u IH]; [by destruct r|].
  rewrite string_app_cons. simpl. destruct (ascii_dec a a); [done|congruence].
Qed.

Lemma prefix_inv (u s : string) :
  String.prefix u s = true → ∃ r, s = u +:+ r.
Proof.
  revert s. induction u as [|a u IH]; intros s Hp; [by exists s|].
  destruct s as [|b s]; simpl in Hp; [done|].
  destruct (ascii_dec a b) as [->|]; [|done].
  destruct (IH s Hp) as [r ->]. by exists r.
Qed.

Lemma split_go_nonempty sep skip cur s : split_go sep skip cur s ≠ [].
Proof.
  revert skip cur. induction s as [|b s IH]; intros skip cur; simpl; [done|].
  destruct skip; [|done]. by case_match.
Qed.

Lemma pop_cons x l : l ≠ [] → pop (x :: l) = pop l.
Proof. by destruct l. Qed.

(** Passing over the rest of a matched separator. *)
Lemma split_go_skip sep cur (u r : string) :
  split_go sep (String.length u) cur (u +:+ r) = split_go sep 0 cur r.
Proof.
  induction u as [|b u IH]; [done|]. rewrite string_app_cons. simpl. exact IH.
Qed.

(** A string without the first character of the separator is one piece. *)
Lemma split_go_no_char a sep' cur s :
  has_char a s = false → split_go (String a sep') 0 cur s = [cur +:+ s].
Proof.
  revert cur. induction s as [|b s IH]; intros cur Hs; simpl in *.
  - by rewrite string_app_nil_r.
  - destruct (Ascii.eqb a b) eqn:Hab; [done|].
    apply Ascii.eqb_neq in Hab. destruct (ascii_dec a b); [done|].
    rewrite IH by done. by rewrite string_app_assoc.
Qed.

(** A string that starts with [u] and has [a] at some position, where
    [u] has no [a], has [u] before that position. *)
Lemma app_eq_before_char a (u r h q : string) :
  has_char a u = false → u +:+ r = h +:+ String a q → ∃ h', h = u +:+ h'.
Proof.
  revert h. induction u as [|x u IH]; intros h Hu Heq; [by exists h|].
  simpl in Hu. destruct (Ascii.eqb a x) eqn:Hax; [done|].
  apply Ascii.eqb_neq in Hax.
  destruct h as [|y h]; rewrite ?string_app_cons, ?string_app_nil_l in Heq;
    [congruence|].
  injection Heq as -> Heq. destruct (IH h Hu Heq) as [h' ->]. by exists h'.
Qed.

(** The last piece of a split, for a separator whose first character
    occurs nowhere else in it: what follows the last separator. *)
Lemma pop_split_go_last a sep' (p : string) n :
  has_char a sep' = false → has_char a p = false →
  ∀ h cur, (String.length h ≤ n)%nat →
    pop (split_go (String a sep') 0 cur (h +:+ String a sep' +:+ p)) = p.
Proof.
  intros Hsep Hp. induction n as [|n IH]; intros h cur Hn.
  - destruct h; [|simpl in Hn; lia].
    rewrite string_app_nil_l, string_app_cons. simpl.
    destruct (ascii_dec a a); [|congruence]. rewrite prefix_app.
    rewrite Nat.sub_0_r, split_go_skip, split_go_no_char by done. done.
  - destruct h as [|b h].
    { apply (IH "" cur). simpl. lia. }
    simpl in Hn. rewrite string_app_cons. simpl.
    destruct (ascii_dec a b) as [<-|Hab].
    + destruct (String.prefix sep' (h +:+ String a sep' +:+ p)) eqn:Hpre.
      * apply prefix_inv in Hpre as [r Hr].
        destruct (app_eq_before_char a sep' r h (sep' +:+ p) Hsep (eq_sym Hr))
          as [h' ->].
        rewrite string_app_assoc, Nat.sub_0_r, split_go_skip.
        rewrite pop_cons by apply split_go_nonempty.
        apply IH. rewrite string_app_length in Hn. lia.
      * apply IH. lia.
    + apply IH. lia.
Qed.

Lemma get_toLowerCase (s : string) (i : nat) :
  String.get i (toLowerCase s) = lower_ascii <$> String.get i s.
Proof.
  revert i. induction s as [|a s IH]; intros i; [done|].
  destruct i as [|i]; simpl; [done|]. apply IH.
Qed.

Lemma length_toLowerCase (s : string) :
  String.length (toLowerCase s) = String.length s.
Proof. induction s as [|a s IH]; simpl; [done|]. by rewrite IH. Qed.

(** X16: for a file name [base.ext] whose [ext] is ASCII and holds no
    dot, the piece taken as extension is [ext], whatever [base] contains
    ([archive.tar.GZ] gives [GZ], [picture.png.exe] gives [exe]), and
    the extension is [ext] with each letter A-Z replaced by the letter
    32 codes further (a-z) and every other character kept. *)
Theorem extension_is_after_the_last_dot base ext :
  has_char "."%char ext = false → ascii_only ext = true →
  pop (split "." (base +:+ "." +:+ ext)) = ext ∧
  String.length (extension (base +:+ "." +:+ ext)) = String.length ext ∧
  ∀ i a, String.get i ext = Some a →
    String.get i (extension (base +:+ "." +:+ ext)) =
    Some (if (65 <=? nat_of_ascii a)%nat && (nat_of_ascii a <=? 90)%nat
          then ascii_of_nat (nat_of_ascii a + 32) else a).
Proof.
  intros Hext _.
  assert (Hpop : pop (split "." (base +:+ "." +:+ ext)) = ext)
    by (by apply (pop_split_go_last "."%char "" ext (String.length base))).
  unfold extension. rewrite Hpop. split_and!; [done|apply length_toLowerCase|].
  intros i a Hi. by rewrite get_toLowerCase, Hi.
Qed.

(** X17: a file name without any dot is its own extension: an upload by
    a named connection of a file called [PNG] (or any dotless name that
    lower-cases to an allowed extension) is accepted, and the file is
    written as the stem, a dot and the lower-cased name. *)
Theorem dotless_file_name_is_its_extension s c fileData fileName stem :
  truthy (currentUsername s !! c) = true →
  has_char "."%char fileName = false →
  toLowerCase fileName ∈ allowed_extensions →
  step s (on_image_upload c fileData fileName stem) =
    (mkState (messageCount s) (messagesHistory s) (onlineUsers s)
             (currentUsername s)
             (pendingWrites s ++ [(c, stem +:+ "." +:+ toLowerCase fileName)]),
     [WriteFile ("uploads/" +:+ stem +:+ "." +:+ toLowerCase fileName)
                (base64Data fileData)]).
Proof.
  intros Ht Hdot Hin. simpl. unfold handle_image_upload. rewrite Ht. simpl.
  assert (extension fileName = toLowerCase fileName) as ->.
  { unfold extension, split. by rewrite (split_go_no_char "."%char "" "" fileName). }
  by rewrite bool_decide_eq_true_2.
Qed.

(** X18: the data written for an upload is what follows the [;base64,]
    marker of the payload, whatever the header before it, when that rest
    holds no semicolon (base64 text never does). *)
Theorem base64Data_strips_the_header header payload :
  has_char ";"%char payload = false →
  base64Data (header +:+ ";base64," +:+ payload) = payload.
Proof.
  intros Hp. unfold base64Data, split.
  by apply (pop_split_go_last ";"%char "base64," payload (String.length header)).
Qed.

(** X19: a payload without any semicolon, hence without the marker, is
    written whole. *)
Theorem base64Data_without_marker fileData :
  has_char ";"%char fileData = false → base64Data fileData = fileData.
Proof.
  intros Hp. unfold base64Data, split.
  by rewrite (split_go_no_char ";"%char "base64," "" fileData).
Qed.

(** ** Deleted for good *)

Lemma run_from_trace s t evs :
  (run_from s t evs).2 = t ++ (run_from s [] evs).2.
Proof.
  revert s t. induction evs as [|e evs IH]; intros s t.
  - by rewrite app_nil_r.
  - change (run_from s t (e :: evs))
      with (run_from (step s e).1 (t ++ (step s e).2) evs).
    change (run_from s [] (e :: evs))
      with (run_from (step s e).1 ([] ++ (step s e).2) evs).
    rewrite IH, (IH _ ([] ++ _)). simpl. by rewrite app_assoc.
Qed.

Lemma run_app evs evs' :
  run (evs ++ evs') = run_from (run evs).1 (run evs).2 evs'.
Proof.
  unfold run, run_from. rewrite fold_left_app. by destruct (fold_left _ evs _).
Qed.

(** X20: a deleted message never comes back: once a delete of an
    identifier has succeeded in a run, no log of any continuation of the
    run holds a message with that identifier, whatever is sent later. *)
Theorem deleted_identifier_never_returns evs evs' k m :
  k ∈ deleted (run evs).2 →
  m ∈ messagesHistory (run (evs ++ evs')).1 → Message.id m ≠ k.
Proof.
  intros Hk Hm Hid.
  destruct (run_accounted (evs ++ evs')) as [_ _ _ Hh].
  apply (list_elem_of_fmap_2 Message.id) in Hm.
  rewrite Hh in Hm. apply list_elem_of_filter in Hm as [Hnot _].
  apply Hnot. rewrite Hid, run_app, run_from_trace, deleted_app.
  apply elem_of_app. by left.
Qed.

End Server.

(** ** The results on concrete runs *)

(** "alice" is claimed by A and then by B; when A disconnects, the entry
    of "alice", which holds B's id, is removed, whereas release by value
    keeps it. *)
Lemma disconnect_removes_entry_of_other_connection :
  let s := (run decimal_string name_reclaimed).1 in
  let s' := (step decimal_string s (on_disconnect "A")).1 in
  onlineUsers s !! "alice" = Some "B" ∧ "B" ≠ "A" ∧
  onlineUsers s' !! "alice" = None ∧
  release_by_value "A" (onlineUsers s) !! "alice" = Some "B".
Proof.
  cbv zeta. split_and!; [reflexivity|discriminate|reflexivity|].
  apply map_lookup_filter_Some. split; [reflexivity|discriminate].
Qed.

Lemma disconnect_releases_bound_name_witness :
  let s := (run decimal_string name_reclaimed).1 in
  reachable decimal_string s ∧
  onlineUsers (step decimal_string s (on_disconnect "B")).1 !! "alice" = None ∧
  onlineUsers (step decimal_string s (on_disconnect "B")).1 !! "bob" =
    onlineUsers s !! "bob".
Proof.
  cbv zeta. split; [apply run_reachable|].
  destruct (disconnect_releases_bound_name decimal_string _ "B"
              (run_reachable decimal_string name_reclaimed)) as (H & _).
  split; rewrite H; reflexivity.
Defined.

(** The empty name differs from the (absent) bound name of A, yet set
    username does nothing at all: the handler tests the name first.  And
    the name [__proto__] is accepted and bound to A, yet the registry
    gets no entry under it. *)
Lemma set_username_ignores_empty_name :
  currentUsername init !! "A" ≠ Some "" ∧
  step decimal_string init (on_set_username "A" "") = (init, []) ∧
  onlineUsers (step decimal_string init (on_set_username "A" "")).1 !! "" = None ∧
  currentUsername init !! "A" ≠ Some "__proto__" ∧
  currentUsername
    (step decimal_string init (on_set_username "A" "__proto__")).1 !! "A" =
    Some "__proto__" ∧
  onlineUsers
    (step decimal_string init (on_set_username "A" "__proto__")).1 !! "__proto__" =
    None.
Proof. split_and!; try discriminate; reflexivity. Qed.

Lemma set_username_claims_nonempty_name_witness :
  let s := (run decimal_string name_reclaimed).1 in
  let r := step decimal_string s (on_set_username "A" " ") in
  reachable decimal_string s ∧ " " ≠ "" ∧ currentUsername s !! "A" ≠ Some " " ∧
  onlineUsers r.1 !! " " = Some "A" ∧
  currentUsername r.1 !! "A" = Some " " ∧
  onlineUsers r.1 !! "alice" = None ∧
  step decimal_string s (on_set_username "A" "") = (s, []).
Proof.
  cbv zeta.
  destruct (set_username_claims_nonempty_name decimal_string _ "A" " "
              (run_reachable decimal_string name_reclaimed))
    as (_ & _ & Hok).
  destruct Hok as (H1 & _ & H2 & H3 & _); [discriminate..|].
  destruct (set_username_claims_nonempty_name decimal_string _ "A" ""
              (run_reachable decimal_string name_reclaimed))
    as (Hempty & _).
  split_and!; [apply run_reachable|discriminate|discriminate| | | |].
  - apply H1. discriminate.
  - exact H2.
  - rewrite H3 by discriminate. reflexivity.
  - exact (Hempty eq_refl).
Defined.

Lemma edit_delete_only_by_author_witness :
  let s := (run decimal_string two_users_one_message).1 in
  reachable decimal_string s ∧
  step decimal_string s (on_delete_message "B" (IdNum 0)) =
    (s, [Console (LogDeleteFailed (IdNum 0))]) ∧
  step decimal_string s (on_edit_message "B" (IdNum 0) "hello") =
    (s, [Console (LogEditFailed (IdNum 0))]) ∧
  messagesHistory (step decimal_string s (on_delete_message "A" (IdStr "0"))).1 = [] ∧
  messagesHistory
    (step decimal_string s (on_edit_message "A" (IdStr "0") "hello")).1 =
    [Message.mk 0 (Some "alice") "hello" None None "10:00 AM" false] ∧
  (step decimal_string s (on_edit_message "A" (IdStr "0") "hello")).2 =
    [IoEmit (EditMessageConfirmed (IdStr "0") "hello");
     Console (LogEdited (IdStr "0") (Some "alice"))].
Proof.
  cbv zeta. split; [apply run_reachable|].
  destruct (edit_delete_only_by_author decimal_string _ "B" (IdNum 0) "hello"
              (run_reachable decimal_string two_users_one_message)) as [_ Hfail].
  destruct Hfail as [Hdel_fail Hedit_fail].
  { intros (m & Hm & _ & Hu). vm_compute in Hm.
    apply list_elem_of_singleton in Hm as ->. discriminate Hu. }
  destruct (edit_delete_only_by_author decimal_string _ "A" (IdStr "0") "hello"
              (run_reachable decimal_string two_users_one_message)) as [Hok _].
  destruct Hok as (_ & i & m & Hl & _ & _ & Hdel & _ & Hedit).
  { eexists. split; [vm_compute; left|]. split; reflexivity. }
  assert (i = 0%nat ∧
          m = Message.mk 0 (Some "alice") "hi" None None "10:00 AM" false)
    as [-> ->].
  { destruct i as [|i]; vm_compute in Hl; [|discriminate Hl].
    split; [done|]. congruence. }
  split; [exact Hdel_fail|]. split; [exact Hedit_fail|].
  rewrite Hdel, Hedit. split_and!; reflexivity.
Defined.


Lemma unbound_connection_is_inert_witness :
  let s := (run decimal_string two_users_one_message).1 in
  never_set_username "C" two_users_one_message ∧
  (step decimal_string s (on_delete_message "C" (IdNum 0))).1 = s.
Proof.
  cbv zeta.
  assert (Hn : never_set_username "C" two_users_one_message)
    by (repeat constructor).
  split; [exact Hn|].
  exact (proj1 (proj2 (unbound_connection_is_inert decimal_string
           two_users_one_message "C" (on_delete_message "C" (IdNum 0))
           Hn eq_refl))).
Defined.

Lemma disallowed_extension_rejected_witness :
  ¬ extension_allowed "photo.EXE" ∧
  (step decimal_string (run decimal_string two_users_one_message).1
        (on_image_upload "A" "data:image/png;base64,QUJD" "photo.EXE" "1700_abc")).1
  = (run decimal_string two_users_one_message).1.
Proof.
  assert (Hext : ¬ extension_allowed "photo.EXE").
  { apply (bool_decide_unpack _). vm_compute. exact I. }
  split; [exact Hext|].
  exact (proj1 (disallowed_extension_rejected decimal_string _ "A"
                  "data:image/png;base64,QUJD" "photo.EXE" "1700_abc" Hext)).
Defined.

Lemma upload_message_only_after_write_witness :
  let s := (run decimal_string upload_started).1 in
  pendingWrites s !! 0%nat = Some ("A", "1700_abc.png") ∧
  messagesHistory s = [] ∧
  messagesHistory (step decimal_string s (on_write_done 0 false "10:01 AM")).1 =
    [Message.mk 0 (Some "alice") "/uploads/1700_abc.png" None None "10:01 AM" false].
Proof.
  cbv zeta. split; [reflexivity|]. split; [reflexivity|].
  destruct (upload_message_only_after_write decimal_string
              (run decimal_string upload_started).1) as (_ & _ & Hdone & _).
  rewrite (Hdone 0%nat "A" "1700_abc.png" "10:01 AM" eq_refl). reflexivity.
Defined.

Lemma edit_changes_only_the_text_witness :
  let s := (run decimal_string two_users_one_message).1 in
  let m := Message.mk 0 (Some "alice") "hi" None None "10:00 AM" false in
  let s' := (step decimal_string s (on_edit_message "A" (IdNum 0) "hello")).1 in
  find_message decimal_string (IdNum 0) (messagesHistory s) = Some (0%nat, m) ∧
  Message.user m = currentUsername s !! "A" ∧
  length (messagesHistory s') = length (messagesHistory s) ∧
  messageCount s' = messageCount s.
Proof.
  cbv zeta. split; [reflexivity|]. split; [reflexivity|].
  destruct (edit_changes_only_the_text decimal_string
              (run decimal_string two_users_one_message).1 "A" (IdNum 0) "hello"
              0%nat (Message.mk 0 (Some "alice") "hi" None None "10:00 AM" false)
              eq_refl eq_refl) as (_ & Hlen & _ & Hcount & _).
  split; [exact Hlen|exact Hcount].
Defined.

Lemma unbound_connection_marks_seen_witness :
  let s := (run decimal_string two_users_one_message).1 in
  let m := Message.mk 0 (Some "alice") "hi" None None "10:00 AM" false in
  reachable decimal_string s ∧ currentUsername s !! "C" = None ∧
  m ∈ messagesHistory s ∧
  messagesHistory (step decimal_string s (on_mark_seen "C" (IdStr "0"))).1 =
    [Message.mk 0 (Some "alice") "hi" None None "10:00 AM" true] ∧
  (step decimal_string s (on_mark_seen "C" (IdStr "0"))).2 = [IoEmit (MessageSeen 0)].
Proof.
  cbv zeta.
  assert (Hm : Message.mk 0 (Some "alice") "hi" None None "10:00 AM" false
               ∈ messagesHistory (run decimal_string two_users_one_message).1)
    by (vm_compute; left).
  split_and!; [apply run_reachable|reflexivity|exact Hm|..];
  destruct (unbound_connection_marks_seen decimal_string _ "C" (IdStr "0") _
              (run_reachable decimal_string two_users_one_message)
              eq_refl Hm eq_refl eq_refl) as ((i & Hl & Hstep) & _);
  rewrite Hstep; [|reflexivity].
  destruct i as [|i]; [reflexivity|]. vm_compute in Hl. discriminate Hl.
Defined.

(** ** Two scenarios of the protocol *)

(** A is alice, B is bob, A says "hi": everyone is sent the message with
    identifier 0. *)
Example scenario_first_message :
  (run decimal_string two_users_one_message).2 =
  [Console (LogUserSet "alice" "A"); SocketEmit "A" (LoadHistory []);
   Console (LogUserSet "bob" "B"); SocketEmit "B" (LoadHistory []);
   IoEmit (ChatMessage
             (Message.mk 0 (Some "alice") "hi" None None "10:00 AM" false))].
Proof. reflexivity. Qed.

(** A deletes message 0 and everyone is told; B's later attempt finds
    nothing and emits nothing. *)
Example scenario_delete_twice :
  let s := (run decimal_string two_users_one_message).1 in
  let r1 := step decimal_string s (on_delete_message "A" (IdNum 0)) in
  let r2 := step decimal_string r1.1 (on_delete_message "B" (IdNum 0)) in
  r1.2 = [IoEmit (DeleteMessage (IdNum 0));
          Console (LogDeleted (IdNum 0) (Some "alice"))] ∧
  messagesHistory r1.1 = [] ∧
  r2 = (r1.1, [Console (LogDeleteFailed (IdNum 0))]).
Proof. cbv zeta. split_and!; reflexivity. Qed.

(** ** The further results on concrete runs *)

Lemma registry_holds_connection_once_witness :
  let s := (run decimal_string name_reclaimed).1 in
  reachable decimal_string s ∧ onlineUsers s !! "alice" = Some "B" ∧
  ("alice" = "alice" ∧ currentUsername s !! "B" = Some "alice").
Proof.
  cbv zeta.
  exact (conj (run_reachable decimal_string name_reclaimed)
          (conj eq_refl
             (registry_holds_connection_once decimal_string _ "B" "alice" "alice"
                (run_reachable decimal_string name_reclaimed) eq_refl eq_refl))).
Defined.

Lemma same_name_same_rights_witness :
  let s := (run decimal_string name_reclaimed).1 in
  currentUsername s !! "A" = currentUsername s !! "B" ∧
  step decimal_string s (on_chat_message "A" "hi" None None "10:00 AM") =
  step decimal_string s (on_chat_message "B" "hi" None None "10:00 AM").
Proof.
  cbv zeta. split; [reflexivity|].
  exact (proj1 (same_name_same_rights decimal_string
                  (run decimal_string name_reclaimed).1 "A" "B" eq_refl)
               "hi" None None "10:00 AM").
Defined.

Lemma bound_name_is_never_cleared_witness :
  let s := (run decimal_string name_reclaimed).1 in
  reachable decimal_string s ∧ is_Some (currentUsername s !! "A") ∧
  ∃ n, currentUsername
         (run_from decimal_string s [] [on_disconnect "A"]).1 !! "A" = Some n ∧
       n ≠ "".
Proof.
  cbv zeta.
  assert (Hb : is_Some (currentUsername (run decimal_string name_reclaimed).1 !! "A"))
    by (by exists "alice").
  exact (conj (run_reachable decimal_string name_reclaimed)
          (conj Hb
             (bound_name_is_never_cleared decimal_string _ [] "A" [on_disconnect "A"]
                (run_reachable decimal_string name_reclaimed) Hb))).
Defined.

Lemma message_record_is_stable_witness :
  let s := (run decimal_string two_users_one_message).1 in
  let m := Message.mk 0 (Some "alice") "hi" None None "10:00 AM" false in
  let m' := Message.mk 0 (Some "alice") "hello" None None "10:00 AM" false in
  let evs := [on_set_username "A" "al"; on_set_username "C" "alice";
              on_edit_message "C" (IdNum 0) "hello"] in
  reachable decimal_string s ∧ m ∈ messagesHistory s ∧
  m' ∈ messagesHistory (run_from decimal_string s [] evs).1 ∧
  same_record m m'.
Proof.
  cbv zeta.
  assert (Hm : Message.mk 0 (Some "alice") "hi" None None "10:00 AM" false
               ∈ messagesHistory (run decimal_string two_users_one_message).1)
    by (vm_compute; left).
  assert (Hm' : Message.mk 0 (Some "alice") "hello" None None "10:00 AM" false
                ∈ messagesHistory
                    (run_from decimal_string
                       (run decimal_string two_users_one_message).1 []
                       [on_set_username "A" "al"; on_set_username "C" "alice";
                        on_edit_message "C" (IdNum 0) "hello"]).1)
    by (vm_compute; left).
  exact (conj (run_reachable decimal_string two_users_one_message)
          (conj Hm (conj Hm'
             (message_record_is_stable decimal_string _ [] _ _ _
                (run_reachable decimal_string two_users_one_message)
                Hm Hm' eq_refl)))).
Defined.

Lemma seen_is_monotone_witness :
  let evs0 := two_users_one_message ++ [on_mark_seen "B" (IdNum 0)] in
  let s := (run decimal_string evs0).1 in
  let m := Message.mk 0 (Some "alice") "hi" None None "10:00 AM" true in
  let m' := Message.mk 0 (Some "alice") "hello" None None "10:00 AM" true in
  let evs := [on_edit_message "A" (IdNum 0) "hello"; on_mark_seen "B" (IdNum 0)] in
  reachable decimal_string s ∧ m ∈ messagesHistory s ∧
  m' ∈ messagesHistory (run_from decimal_string s [] evs).1 ∧
  Message.seen m' = true.
Proof.
  cbv zeta.
  assert (Hm : Message.mk 0 (Some "alice") "hi" None None "10:00 AM" true
               ∈ messagesHistory
                   (run decimal_string
                      (two_users_one_message ++ [on_mark_seen "B" (IdNum 0)])).1)
    by (vm_compute; left).
  assert (Hm' : Message.mk 0 (Some "alice") "hello" None None "10:00 AM" true
                ∈ messagesHistory
                    (run_from decimal_string
                       (run decimal_string
                          (two_users_one_message ++ [on_mark_seen "B" (IdNum 0)])).1
                       []
                       [on_edit_message "A" (IdNum 0) "hello";
                        on_mark_seen "B" (IdNum 0)]).1)
    by (vm_compute; left).
  exact (conj (run_reachable decimal_string _)
          (conj Hm (conj Hm'
             (seen_is_monotone decimal_string _ [] _ _ _
                (run_reachable decimal_string _) Hm eq_refl Hm' eq_refl)))).
Defined.

Lemma only_the_author_deletes_witness :
  let s := (run decimal_string two_users_one_message).1 in
  let m := Message.mk 0 (Some "alice") "hi" None None "10:00 AM" false in
  let e := on_delete_message "A" (IdStr "0") in
  reachable decimal_string s ∧ m ∈ messagesHistory s ∧
  messagesHistory (step decimal_string s e).1 = [] ∧
  ∃ c x, e = on_delete_message c x ∧
         Number decimal_string x = Some (Message.id m) ∧
         currentUsername s !! c = Message.user m.
Proof.
  cbv zeta.
  assert (Hm : Message.mk 0 (Some "alice") "hi" None None "10:00 AM" false
               ∈ messagesHistory (run decimal_string two_users_one_message).1)
    by (vm_compute; left).
  assert (Hgone : ∀ m', m' ∈ messagesHistory
                         (step decimal_string
                            (run decimal_string two_users_one_message).1
                            (on_delete_message "A" (IdStr "0"))).1 →
                        Message.id m' ≠
                        Message.id (Message.mk 0 (Some "alice") "hi" None None
                                               "10:00 AM" false)).
  { intros m' Hm'. vm_compute in Hm'. by apply elem_of_nil in Hm'. }
  exact (conj (run_reachable decimal_string two_users_one_message)
          (conj Hm (conj eq_refl
             (only_the_author_deletes decimal_string _ _ _
                (run_reachable decimal_string two_users_one_message) Hm Hgone)))).
Defined.

Lemma upload_author_is_read_at_completion_witness :
  let s := (run decimal_string upload_started).1 in
  let s1 := (step decimal_string s (on_set_username "A" "bob")).1 in
  let m := Message.mk 0 (Some "bob") "/uploads/1700_abc.png" None None
                      "10:01 AM" false in
  "bob" ≠ "" ∧ pendingWrites s !! 0%nat = Some ("A", "1700_abc.png") ∧
  (messagesHistory (step decimal_string s1 (on_write_done 0 false "10:01 AM")).1 =
     messagesHistory s ++ [m] ∧
   (step decimal_string s1 (on_write_done 0 false "10:01 AM")).2 =
     [IoEmit (ChatMessage m); Console (LogImageSaved "1700_abc.png")]).
Proof.
  cbv zeta.
  assert (Hn : "bob" ≠ "") by discriminate.
  exact (conj Hn (conj eq_refl
           (upload_author_is_read_at_completion decimal_string
              (run decimal_string upload_started).1 "A" "bob" 0%nat
              "1700_abc.png" "10:01 AM" Hn eq_refl))).
Defined.

Lemma upload_completes_after_disconnect_witness :
  let s := (run decimal_string upload_started).1 in
  let s1 := (step decimal_string s (on_disconnect "A")).1 in
  reachable decimal_string s ∧
  pendingWrites s !! 0%nat = Some ("A", "1700_abc.png") ∧
  (step decimal_string s1 (on_write_done 0 false "10:01 AM")).2 =
    [IoEmit (ChatMessage (Message.mk 0 (Some "alice") "/uploads/1700_abc.png"
                                     None None "10:01 AM" false));
     Console (LogImageSaved "1700_abc.png")].
Proof.
  cbv zeta. split; [apply run_reachable|]. split; [reflexivity|].
  destruct (upload_completes_after_disconnect decimal_string
              (run decimal_string upload_started).1 "A" 0%nat "1700_abc.png"
              "10:01 AM" (run_reachable decimal_string upload_started) eq_refl)
    as (name & Hname & _ & _ & _ & Hout).
  assert (name = "alice") as -> by (vm_compute in Hname; congruence).
  exact Hout.
Defined.

Lemma extension_is_after_the_last_dot_witness :
  has_char "."%char "GZ" = false ∧ ascii_only "GZ" = true ∧
  pop (split "." ("archive.tar" +:+ "." +:+ "GZ")) = "GZ" ∧
  String.get 0 (extension ("archive.tar" +:+ "." +:+ "GZ")) = Some "g"%char ∧
  String.get 1 (extension ("archive.tar" +:+ "." +:+ "GZ")) = Some "z"%char.
Proof.
  destruct (extension_is_after_the_last_dot "archive.tar" "GZ" eq_refl eq_refl)
    as (Hpop & _ & Hget).
  exact (conj eq_refl (conj eq_refl (conj Hpop
           (conj (Hget 0%nat "G"%char eq_refl) (Hget 1%nat "Z"%char eq_refl))))).
Defined.

Lemma dotless_file_name_is_its_extension_witness :
  let s := (run decimal_string upload_started).1 in
  truthy (currentUsername s !! "A") = true ∧
  has_char "."%char "PNG" = false ∧
  toLowerCase "PNG" ∈ allowed_extensions ∧
  (step decimal_string s (on_image_upload "A" "QUJD" "PNG" "1701_xyz")).2 =
    [WriteFile "uploads/1701_xyz.png" "QUJD"].
Proof.
  cbv zeta.
  assert (Hin : toLowerCase "PNG" ∈ allowed_extensions) by (vm_compute; left).
  split; [reflexivity|]. split; [reflexivity|]. split; [exact Hin|].
  rewrite (dotless_file_name_is_its_extension decimal_string
             (run decimal_string upload_started).1 "A" "QUJD" "PNG" "1701_xyz"
             eq_refl eq_refl Hin).
  reflexivity.
Defined.

Lemma base64Data_strips_the_header_witness :
  has_char ";"%char "QUJD" = false ∧
  base64Data ("data:image/svg+xml;charset=utf-8" +:+ ";base64," +:+ "QUJD") = "QUJD".
Proof.
  exact (conj eq_refl
           (base64Data_strips_the_header "data:image/svg+xml;charset=utf-8" "QUJD"
              eq_refl)).
Defined.

Lemma base64Data_without_marker_witness :
  has_char ";"%char "QUJD" = false ∧ base64Data "QUJD" = "QUJD".
Proof. exact (conj eq_refl (base64Data_without_marker "QUJD" eq_refl)). Defined.

Lemma deleted_identifier_never_returns_witness :
  let evs := two_users_one_message ++ [on_delete_message "A" (IdNum 0)] in
  let evs' := [on_chat_message "B" "anyone?" None None "10:02 AM"] in
  let m := Message.mk 1 (Some "bob") "anyone?" None None "10:02 AM" false in
  0 ∈ deleted decimal_string (run decimal_string evs).2 ∧
  m ∈ messagesHistory (run decimal_string (evs ++ evs')).1 ∧
  Message.id m ≠ 0.
Proof.
  cbv zeta.
  assert (Hk : 0 ∈ deleted decimal_string
                 (run decimal_string
                    (two_users_one_message ++ [on_delete_message "A" (IdNum 0)])).2)
    by (vm_compute; left).
  assert (Hm : Message.mk 1 (Some "bob") "anyone?" None None "10:02 AM" false
               ∈ messagesHistory
                   (run decimal_string
                      ((two_users_one_message ++ [on_delete_message "A" (IdNum 0)])
                       ++ [on_chat_message "B" "anyone?" None None "10:02 AM"])).1)
    by (vm_compute; left).
  exact (conj Hk (conj Hm
           (deleted_identifier_never_returns decimal_string _ _ 0 _ Hk Hm))).
Defined.
